(** * udev-hid-bpf: device identity, resolution, candidate matching and lifecycle

    A shallow embedding of [src/src/hidudev.rs] and [src/src/main.rs].

    Conventions of the embedding:
    - a Rust [&str] / [OsStr] / path is its sequence of bytes, one [ascii]
      (an 8-bit character) per byte: [rstr];
    - a [u32] is an [N] below [2^32];
    - [std::io::Result<T>] is [outcome T]; a panic ([unwrap] on [Err],
      out-of-range or non-char-boundary string slicing) is [RPanic];
    - the file system and the udev database are records of functions
      that the embedded code queries;
    - collaborators not in this repository's sources (the loader, the
      bpffs pin store) are Section variables. *)

From Stdlib Require Import List Bool Ascii String NArith ZArith Lia Setoid.
Import ListNotations.

Set Warnings "-register-all".

Open Scope list_scope.

(** ** Strings as byte sequences *)

Definition rstr := list ascii.

(** A literal, written as a Rocq string. *)
Definition lit (s : string) : rstr := list_ascii_of_string s.

Definition byte_of (c : ascii) : N := N_of_ascii c.

(** UTF-8 continuation byte ([0b10xx_xxxx]). *)
Definition is_continuation (c : ascii) : bool :=
  (128 <=? byte_of c)%N && (byte_of c <? 192)%N.

(** [str::is_char_boundary]. *)
Definition is_char_boundary (s : rstr) (i : nat) : bool :=
  match nth_error s i with
  | None => Nat.eqb i (List.length s)
  | Some c => negb (is_continuation c)
  end.

(** [&s[a..b]]: [None] is the panic of an invalid slice. *)
Definition str_slice (s : rstr) (a b : nat) : option rstr :=
  if Nat.leb a b && Nat.leb b (List.length s)
     && is_char_boundary s a && is_char_boundary s b
  then Some (firstn (b - a) (skipn a s))
  else None.

(** [&s[a..]]. *)
Definition str_slice_from (s : rstr) (a : nat) : option rstr :=
  str_slice s a (List.length s).

Fixpoint strip_prefix (p s : rstr) : option rstr :=
  match p with
  | [] => Some s
  | c :: p' =>
      match s with
      | [] => None
      | x :: s' => if Ascii.eqb c x then strip_prefix p' s' else None
      end
  end.

Fixpoint trim_go (fuel : nat) (p s : rstr) : rstr :=
  match fuel with
  | O => s
  | S f =>
      match strip_prefix p s with
      | Some s' => trim_go f p s'
      | None => s
      end
  end.

(** [str::trim_start_matches]: removes the prefix [p] repeatedly.  Each
    removal of a non-empty [p] shortens [s], so [length s + 1] rounds
    suffice; for an empty [p] the string is returned unchanged. *)
Definition trim_start_matches (s p : rstr) : rstr :=
  trim_go (S (List.length s)) p s.

(** ** [std::io::Result] *)

Inductive error_kind := InvalidData | InvalidInput | OtherKind.

(** [std::io::Error]: an OS error carries its errno; [Error::new] a kind. *)
Inductive io_error :=
| OsError (errno : Z)
| Custom (kind : error_kind).

Definition ENODEV : Z := 19.
Definition EINVAL : Z := 22.
Definition EACCES : Z := 13.

Definition raw_os_error (e : io_error) : option Z :=
  match e with
  | OsError n => Some n
  | Custom _ => None
  end.

Inductive outcome (A : Type) :=
| ROk (a : A)
| RErr (e : io_error)
| RPanic.
Arguments ROk {A} a.
Arguments RErr {A} e.
Arguments RPanic {A}.

(** The [?] operator. *)
Definition obind {A B} (m : outcome A) (k : A -> outcome B) : outcome B :=
  match m with
  | ROk a => k a
  | RErr e => RErr e
  | RPanic => RPanic
  end.

Notation "x <- c1 ;; c2" := (obind c1 (fun x => c2))
  (at level 61, c1 at next level, right associativity).

(** [Result::unwrap]. *)
Definition unwrap {A} (m : outcome A) : outcome A :=
  match m with
  | ROk a => ROk a
  | _ => RPanic
  end.

(** ** [u32::from_str_radix(s, 16)] *)

(** [char::to_digit(16)]. *)
Definition hex_digit_val (c : ascii) : option N :=
  let n := byte_of c in
  if (48 <=? n)%N && (n <=? 57)%N then Some (n - 48)%N
  else if (65 <=? n)%N && (n <=? 70)%N then Some (n - 55)%N
  else if (97 <=? n)%N && (n <=? 102)%N then Some (n - 87)%N
  else None.

Definition is_hex_digit (c : ascii) : bool :=
  match hex_digit_val c with Some _ => true | None => false end.

(** Digit accumulation with the [checked_mul]/[checked_add] overflow test. *)
Fixpoint digits_go (acc : N) (s : rstr) : option N :=
  match s with
  | [] => Some acc
  | c :: s' =>
      match hex_digit_val c with
      | None => None
      | Some d =>
          let acc' := (acc * 16 + d)%N in
          if (acc' <? 2 ^ 32)%N then digits_go acc' s' else None
      end
  end.

(** For an unsigned type a leading ['+'] is skipped (a lone ['+'] is an
    error); a leading ['-'] is not, and fails as an invalid digit. *)
Definition from_str_radix16 (s : rstr) : option N :=
  match s with
  | [] => None
  | c :: rest =>
      if Ascii.eqb c "+"%char then
        match rest with
        | [] => None
        | _ => digits_go 0 rest
        end
      else digits_go 0 s
  end.

(** ** Character classes and UTF-8 *)

Definition is_sep (c : ascii) : bool := Ascii.eqb c "/"%char.

(** ASCII lower-casing, the case folding of a [(?i)] byte regex. *)
Definition lower (c : ascii) : ascii :=
  let n := byte_of c in
  if (65 <=? n)%N && (n <=? 90)%N then ascii_of_N (n + 32) else c.

Definition upper (c : ascii) : ascii :=
  let n := byte_of c in
  if (97 <=? n)%N && (n <=? 122)%N then ascii_of_N (n - 32) else c.

Definition ci_eq (c d : ascii) : bool := Ascii.eqb (lower c) (lower d).

(** The range of the second byte after a three- or four-byte lead, beyond
    being a continuation byte: after [E0] at least [A0] (no overlong
    form), after [ED] at most [9F] (no surrogate), after [F0] at least
    [90] (no overlong form), after [F4] at most [8F] (nothing above
    U+10FFFF). *)
Definition utf8_second_ok (lead second : ascii) : bool :=
  let b := byte_of lead in
  let x := byte_of second in
  if (b =? 224)%N then (160 <=? x)%N
  else if (b =? 237)%N then (x <=? 159)%N
  else if (b =? 240)%N then (144 <=? x)%N
  else if (b =? 244)%N then (x <=? 143)%N
  else true.

(** UTF-8 well-formedness of a byte sequence, by lead byte, second-byte
    range and continuation count: the check of [core::str::from_utf8],
    on which [OsStr::to_str] succeeds. *)
Fixpoint utf8_valid (s : rstr) : bool :=
  match s with
  | [] => true
  | c :: r =>
      let b := byte_of c in
      if (b <? 128)%N then utf8_valid r
      else if (194 <=? b)%N && (b <=? 223)%N then
        match r with
        | d :: r' => is_continuation d && utf8_valid r'
        | [] => false
        end
      else if (224 <=? b)%N && (b <=? 239)%N then
        match r with
        | d :: e :: r' =>
            is_continuation d && utf8_second_ok c d && is_continuation e && utf8_valid r'
        | _ => false
        end
      else if (240 <=? b)%N && (b <=? 244)%N then
        match r with
        | d :: e :: f :: r' =>
            is_continuation d && utf8_second_ok c d && is_continuation e
            && is_continuation f && utf8_valid r'
        | _ => false
        end
      else false
  end.

(** ** The udev database *)

Definition rstr_eqb (a b : rstr) : bool :=
  if list_eq_dec ascii_dec a b then true else false.

Fixpoint assoc (k : rstr) (l : list (rstr * rstr)) : option rstr :=
  match l with
  | [] => None
  | (k', v) :: l' => if rstr_eqb k k' then Some v else assoc k l'
  end.

(** A device record: syspath, sysname, subsystem, properties and parent. *)
Inductive device :=
| Device (syspath sysname : rstr) (subsystem : option rstr)
    (properties : list (rstr * rstr)) (parent : option device).

Definition dev_syspath (d : device) : rstr :=
  match d with Device p _ _ _ _ => p end.
Definition dev_sysname (d : device) : rstr :=
  match d with Device _ n _ _ _ => n end.
Definition dev_subsystem (d : device) : option rstr :=
  match d with Device _ _ s _ _ => s end.
Definition dev_properties (d : device) : list (rstr * rstr) :=
  match d with Device _ _ _ ps _ => ps end.
Definition dev_parent (d : device) : option device :=
  match d with Device _ _ _ _ p => p end.

(** [Device::property_value]: libudev reports the subsystem as the
    [SUBSYSTEM] property. *)
Definition property_value (d : device) (key : rstr) : option rstr :=
  if rstr_eqb key (lit "SUBSYSTEM") then dev_subsystem d
  else assoc key (dev_properties d).

(** [udev_device_get_parent_with_subsystem_devtype]: the first proper
    ancestor whose subsystem is [sub]. *)
Fixpoint parent_with_subsystem (d : device) (sub : rstr) : option device :=
  match dev_parent d with
  | None => None
  | Some p =>
      match dev_subsystem p with
      | Some s => if rstr_eqb s sub then Some p else parent_with_subsystem p sub
      | None => parent_with_subsystem p sub
      end
  end.

(** [udev::Device::from_syspath]: the database lookup; a path with no
    device record fails with the OS error [ENODEV]. *)
Record udev := { device_from_syspath : rstr -> outcome device }.

(** The file system as the code queries it.  [fs_read_dir] lists a
    directory's entries ([None] inside the list: an entry that failed to
    be read; [None] for the whole: [read_dir] failed). *)
Record fs := {
  path_exists : rstr -> bool;
  path_is_file : rstr -> bool;
  fs_read_dir : rstr -> option (list (option rstr));
  fs_read_link : rstr -> option rstr
}.

(** ** IdentityCodec: [Modalias] *)

Module Modalias.

Record t := mk { bus : N; group : N; vid : N; pid : N }.

(** [u32::from_str_radix(&modalias[a..b], 16).map_err(econvert)?] *)
Definition parse_field (m : rstr) (a b : nat) : outcome N :=
  match str_slice m a b with
  | None => RPanic
  | Some f =>
      match from_str_radix16 f with
      | Some v => ROk v
      | None => RErr (Custom InvalidData)
      end
  end.

(** [Modalias::from_str]. *)
Definition from_str (modalias : rstr) : outcome t :=
  let modalias := trim_start_matches modalias (lit "hid:") in
  if negb (Nat.eqb (List.length modalias) 28) then RErr (Custom InvalidData)
  else
    bus <- parse_field modalias 1 5 ;;
    group <- parse_field modalias 6 10 ;;
    vid <- parse_field modalias 11 19 ;;
    pid <- parse_field modalias 20 28 ;;
    ROk (mk bus group vid pid).

(** [Modalias::from_udev_device]: an absent [MODALIAS] property is
    replaced by ["hid:empty"]; a non-UTF-8 value panics. *)
Definition from_udev_device (udev_device : device) : outcome t :=
  let modalias :=
    match property_value udev_device (lit "MODALIAS") with
    | Some data => data
    | None => lit "hid:empty"
    end in
  if utf8_valid modalias then from_str modalias else RPanic.

End Modalias.

(** ** [std::path::PathBuf::join] on Unix *)

(** An absolute [name] replaces the base; otherwise a separator is put
    between them unless [dir] is empty or already ends in one. *)
Definition join (dir name : rstr) : rstr :=
  match name with
  | c :: _ => if is_sep c then name else
      match rev dir with
      | [] => name
      | l :: _ => if is_sep l then dir ++ name else dir ++ "/"%char :: name
      end
  | [] =>
      match rev dir with
      | [] => name
      | l :: _ => if is_sep l then dir ++ name else dir ++ ["/"%char]
      end
  end.

(** ** Uppercase hexadecimal formatting: [format!("{:0wX}", v)] *)

Definition hex_char (d : N) : ascii :=
  nth (N.to_nat d) (lit "0123456789ABCDEF") "0"%char.

(** Digits, most significant first; 32 rounds cover every [u32]. *)
Fixpoint hex_digits_go (fuel : nat) (v : N) (acc : rstr) : rstr :=
  match fuel with
  | O => acc
  | S f =>
      let acc' := hex_char (v mod 16) :: acc in
      if (v / 16 =? 0)%N then acc' else hex_digits_go f (v / 16) acc'
  end.

Definition fmt_hex_upper (width : nat) (v : N) : rstr :=
  let ds := hex_digits_go 32 v [] in
  repeat "0"%char (width - List.length ds) ++ ds.

(** ** Glob patterns (the [globset] crate)

    [GlobBuilder::new(p).literal_separator(true).case_insensitive(true)]
    compiles [p] to an anchored byte regex: [?] is [[^/]], [*] is
    [[^/]*], [[...]] a class, [{a,b}] an alternation (not nested),
    [\c] the literal [c]; letters compare case-insensitively.  The
    recursive [**] forms between separators are not modelled (a [*]
    is always one [[^/]*]). *)

Inductive atom :=
| ALit (c : ascii)
| AAny
| AStar
| AClass (negated : bool) (ranges : list (ascii * ascii)).

Inductive token :=
| TAtom (a : atom)
| TAlts (branches : list (list atom)).

(** Parser context: the tokens so far (reversed), and inside [{...}]
    the finished branches (reversed) and the current one (reversed). *)
Inductive ctx :=
| CTop (top : list token)
| CAlt (top : list token) (done : list (list atom)) (cur : list atom).

Inductive pstate :=
| PNorm (c : ctx)
| PEsc (c : ctx)
| PClassStart (c : ctx)
| PClass (c : ctx) (negated first in_range : bool) (ranges : list (ascii * ascii)).

Definition push (c : ctx) (a : atom) : ctx :=
  match c with
  | CTop top => CTop (TAtom a :: top)
  | CAlt top d cur => CAlt top d (a :: cur)
  end.

Definition class_step (c : ctx) (neg first in_rng : bool)
    (rs : list (ascii * ascii)) (x : ascii) : option pstate :=
  if Ascii.eqb x "]"%char then
    if first then Some (PClass c neg false in_rng (("]"%char, "]"%char) :: rs))
    else
      let rs' := if in_rng then ("-"%char, "-"%char) :: rs else rs in
      Some (PNorm (push c (AClass neg (rev rs'))))
  else if Ascii.eqb x "-"%char then
    if first then Some (PClass c neg false false (("-"%char, "-"%char) :: rs))
    else if in_rng then
      match rs with
      | (a, _) :: rs' => Some (PClass c neg false false ((a, "-"%char) :: rs'))
      | [] => Some (PClass c neg false false [("-"%char, "-"%char)])
      end
    else
      match rs with
      | [] => Some (PClass c neg false false [("-"%char, "-"%char)])
      | _ => Some (PClass c neg false true rs)
      end
  else if in_rng then
    match rs with
    | (a, _) :: rs' =>
        if (byte_of x <? byte_of a)%N then None
        else Some (PClass c neg false false ((a, x) :: rs'))
    | [] => Some (PClass c neg false false [(x, x)])
    end
  else Some (PClass c neg false false ((x, x) :: rs)).

Definition step (st : pstate) (x : ascii) : option pstate :=
  match st with
  | PNorm c =>
      if Ascii.eqb x "?"%char then Some (PNorm (push c AAny))
      else if Ascii.eqb x "*"%char then Some (PNorm (push c AStar))
      else if Ascii.eqb x "["%char then Some (PClassStart c)
      else if Ascii.eqb x "{"%char then
        match c with
        | CTop top => Some (PNorm (CAlt top [] []))
        | CAlt _ _ _ => None
        end
      else if Ascii.eqb x "}"%char then
        match c with
        | CTop top => Some (PNorm (CTop (TAlts [] :: top)))
        | CAlt top d cur => Some (PNorm (CTop (TAlts (rev (rev cur :: d)) :: top)))
        end
      else if Ascii.eqb x ","%char then
        match c with
        | CTop top => Some (PNorm (CTop (TAtom (ALit x) :: top)))
        | CAlt top d cur => Some (PNorm (CAlt top (rev cur :: d) []))
        end
      else if Ascii.eqb x "\"%char then Some (PEsc c)
      else Some (PNorm (push c (ALit x)))
  | PEsc c => Some (PNorm (push c (ALit x)))
  | PClassStart c =>
      if Ascii.eqb x "!"%char || Ascii.eqb x "^"%char
      then Some (PClass c true true false [])
      else class_step c false true false [] x
  | PClass c neg first in_rng rs => class_step c neg first in_rng rs x
  end.

Fixpoint parse_go (st : pstate) (s : rstr) : option pstate :=
  match s with
  | [] => Some st
  | x :: s' =>
      match step st x with
      | None => None
      | Some st' => parse_go st' s'
      end
  end.

(** [GlobBuilder::build]: [None] is a build error (unclosed [{] or
    [[], nested [{], dangling [\], reversed range). *)
Definition glob_build (p : rstr) : option (list token) :=
  match parse_go (PNorm (CTop [])) p with
  | Some (PNorm (CTop top)) => Some (rev top)
  | _ => None
  end.

(** Matching, as the list of the input suffixes left after a token. *)

Definition in_ranges (rs : list (ascii * ascii)) (x : ascii) : bool :=
  existsb (fun r => (byte_of (fst r) <=? byte_of x)%N && (byte_of x <=? byte_of (snd r))%N) rs.

Definition class_match (neg : bool) (rs : list (ascii * ascii)) (x : ascii) : bool :=
  let hit := in_ranges rs x || in_ranges rs (lower x) || in_ranges rs (upper x) in
  if neg then negb hit else hit.

Fixpoint star_rems (s : rstr) : list rstr :=
  s :: match s with
       | [] => []
       | c :: s' => if is_sep c then [] else star_rems s'
       end.

Definition match_atom (a : atom) (s : rstr) : list rstr :=
  match a with
  | ALit c =>
      match s with x :: s' => if ci_eq c x then [s'] else [] | [] => [] end
  | AAny =>
      match s with x :: s' => if is_sep x then [] else [s'] | [] => [] end
  | AStar => star_rems s
  | AClass neg rs =>
      match s with x :: s' => if class_match neg rs x then [s'] else [] | [] => [] end
  end.

Fixpoint match_atoms (l : list atom) (s : rstr) : list rstr :=
  match l with
  | [] => [s]
  | a :: l' => flat_map (match_atoms l') (match_atom a s)
  end.

(** Empty branches produce no regex part and are dropped; an
    alternation with no part left matches the empty string. *)
Definition match_token (t : token) (s : rstr) : list rstr :=
  match t with
  | TAtom a => match_atom a s
  | TAlts bs =>
      match filter (fun b => match b with [] => false | _ => true end) bs with
      | [] => [s]
      | bs' => flat_map (fun b => match_atoms b s) bs'
      end
  end.

Fixpoint match_tokens (l : list token) (s : rstr) : list rstr :=
  match l with
  | [] => [s]
  | t :: l' => flat_map (match_tokens l') (match_token t s)
  end.

(** [GlobMatcher::is_match]: the whole path is matched. *)
Definition glob_is_match (g : list token) (path : rstr) : bool :=
  existsb (fun r => match r with [] => true | _ => false end) (match_tokens g path).

(** ** DeviceResolver and the add / remove methods: [HidUdev] *)

Module HidUdev.

Record t := mk { udev_device : device }.

(** [HidUdev::from_syspath]. *)
Definition from_syspath (U : udev) (syspath : rstr) : outcome t :=
  device <- device_from_syspath U syspath ;;
  let is_hid_device :=
    match property_value device (lit "SUBSYSTEM") with
    | Some sub => rstr_eqb sub (lit "hid")
    | None => false
    end in
  if is_hid_device then ROk (mk device)
  else
    match parent_with_subsystem device (lit "hid") with
    | Some parent => ROk (mk parent)
    | None => RErr (Custom InvalidData)
    end.

(** [HidUdev::modalias]. *)
Definition modalias (h : t) : outcome Modalias.t :=
  unwrap (Modalias.from_udev_device (udev_device h)).

(** [HidUdev::sysname]: [to_str().unwrap()]. *)
Definition sysname (h : t) : outcome rstr :=
  let n := dev_sysname (udev_device h) in
  if utf8_valid n then ROk n else RPanic.

(** [HidUdev::id]. *)
Definition id (h : t) : outcome N :=
  hid_sys <- sysname h ;;
  match str_slice_from hid_sys 15 with
  | None => RPanic
  | Some tail => unwrap (match from_str_radix16 tail with
                         | Some v => ROk v
                         | None => RErr (Custom InvalidData)
                         end)
  end.

(** The glob of [load_bpf_from_directory]:
    [b{BBBB,\*}g{GGGG,\*}v{VVVVVVVV,\*}p{PPPPPPPP,\*}*.bpf.o]. *)
Definition glob_file_pattern (m : Modalias.t) : rstr :=
  lit "b{" ++ fmt_hex_upper 4 (Modalias.bus m) ++
  lit ",\*}g{" ++ fmt_hex_upper 4 (Modalias.group m) ++
  lit ",\*}v{" ++ fmt_hex_upper 8 (Modalias.vid m) ++
  lit ",\*}p{" ++ fmt_hex_upper 8 (Modalias.pid m) ++
  lit ",\*}*.bpf.o".

Definition entry_names (elems : list (option rstr)) : list rstr :=
  flat_map (fun e => match e with Some n => [n] | None => [] end) elems.

(** Lines 126-151 of [load_bpf_from_directory]: build the glob, read the
    directory, keep the paths that match and are files.  Every
    [to_str().unwrap()] panics on a non-UTF-8 path. *)
Definition select_matches (F : fs) (bpf_dir : rstr) (m : Modalias.t)
    : outcome (list rstr) :=
  let glob_path := join bpf_dir (glob_file_pattern m) in
  if negb (utf8_valid glob_path) then RPanic else
  match glob_build glob_path with
  | None => RPanic
  | Some globset =>
      match fs_read_dir F bpf_dir with
      | None => RPanic
      | Some elems =>
          let paths := map (join bpf_dir) (entry_names elems) in
          if forallb utf8_valid paths then
            ROk (filter (fun path => glob_is_match globset path && path_is_file F path) paths)
          else RPanic
      end
  end.

Section Loader.

(** [bpf::HidBPF::new()] and [HidBPF::load_programs]; the [bpf] module
    is not part of the sources. *)
Variable hidbpf_new : outcome unit.
Variable load_programs : rstr -> t -> outcome unit.

(** The loop [for path in matches { loader.load_programs(path, self).unwrap() }],
    returning the paths handed to the loader, in order, and the outcome. *)
Fixpoint load_each (h : t) (paths : list rstr) : list rstr * outcome unit :=
  match paths with
  | [] => ([], ROk tt)
  | path :: rest =>
      match load_programs path h with
      | ROk _ => let (tr, r) := load_each h rest in (path :: tr, r)
      | _ => ([path], RPanic)
      end
  end.

Definition load_matches (h : t) (matches : list rstr) : list rstr * outcome unit :=
  match matches with
  | [] => ([], ROk tt)
  | _ =>
      match hidbpf_new with
      | ROk _ => load_each h matches
      | _ => ([], RPanic)
      end
  end.

(** [HidUdev::load_bpf_from_directory]. *)
Definition load_bpf_from_directory (F : fs) (h : t) (bpf_dir : rstr)
    : list rstr * outcome unit :=
  if negb (path_exists F bpf_dir) then ([], ROk tt) else
  match modalias h with
  | RErr e => ([], RErr e)
  | RPanic => ([], RPanic)
  | ROk m =>
      match select_matches F bpf_dir m with
      | ROk matches => load_matches h matches
      | RErr e => ([], RErr e)
      | RPanic => ([], RPanic)
      end
  end.

End Loader.

Section Remove.

(** The file-system state, [bpf::get_bpffs_path] and
    [std::fs::remove_dir_all]. *)
Variable fs_state : Type.
Variable get_bpffs_path : rstr -> rstr.
Variable remove_dir_all : fs_state -> rstr -> fs_state * outcome unit.

(** [HidUdev::remove_bpf_objects]. *)
Definition remove_bpf_objects (st : fs_state) (h : t) : fs_state * outcome unit :=
  match sysname h with
  | ROk n =>
      let (st', _) := remove_dir_all st (get_bpffs_path n) in (st', ROk tt)
  | RErr e => (st, RErr e)
  | RPanic => (st, RPanic)
  end.

End Remove.

End HidUdev.

(** ** [main.rs]: fallback name extraction and the remove command *)

Definition is_re_char (c : ascii) : bool :=
  let n := byte_of c in
  ((65 <=? n)%N && (n <=? 90)%N) || ((48 <=? n)%N && (n <=? 57)%N).

(** [[A-Z0-9]{4}:[A-Z0-9]{4}:[A-Z0-9]{4}\.[A-Z0-9]{4}] at the start of [s]. *)
Definition layout_at (s : rstr) : bool :=
  match s with
  | a1 :: a2 :: a3 :: a4 :: c1 :: b1 :: b2 :: b3 :: b4 :: c2
    :: d1 :: d2 :: d3 :: d4 :: c3 :: e1 :: e2 :: e3 :: e4 :: _ =>
      forallb is_re_char [a1; a2; a3; a4; b1; b2; b3; b4; d1; d2; d3; d4; e1; e2; e3; e4]
      && Ascii.eqb c1 ":"%char && Ascii.eqb c2 ":"%char && Ascii.eqb c3 "."%char
  | _ => false
  end.

(** [Regex::captures(d).is_some()]: a match anywhere in [d]. *)
Fixpoint regex_captures (s : rstr) : bool :=
  layout_at s || match s with [] => false | _ :: s' => regex_captures s' end.

Fixpoint split_sep (s : rstr) : list rstr :=
  match s with
  | [] => [[]]
  | c :: s' =>
      let parts := split_sep s' in
      if is_sep c then [] :: parts
      else match parts with
           | p :: ps => (c :: p) :: ps
           | [] => [[c]]
           end
  end.

(** [Path::file_name]: the last component, unless it is [..]; empty
    components and [.] are not components. *)
Definition file_name (p : rstr) : option rstr :=
  let comps := filter (fun c => negb (rstr_eqb c []) && negb (rstr_eqb c (lit "."))) (split_sep p) in
  match rev comps with
  | [] => None
  | last :: _ => if rstr_eqb last (lit "..") then None else Some last
  end.

(** [sysname_from_syspath]. *)
Definition sysname_from_syspath (F : fs) (syspath : rstr) : outcome rstr :=
  let abspath := match fs_read_link F syspath with Some t => t | None => syspath end in
  match file_name abspath with
  | Some d => if utf8_valid d && regex_captures d then ROk d else RErr (OsError EINVAL)
  | None => RErr (OsError EINVAL)
  end.

Section Main.

(** [bpf::remove_bpf_objects(&sysname)], the purge of the pin store; the
    [bpf] module is not part of the sources. *)
Variable purge : rstr -> outcome unit.

(** [cmd_remove]. *)
Definition cmd_remove (U : udev) (F : fs) (syspath : rstr) : outcome unit :=
  let sysname :=
    match HidUdev.from_syspath U syspath with
    | ROk dev => HidUdev.sysname dev
    | RErr e =>
        match raw_os_error e with
        | Some n => if Z.eqb n ENODEV then sysname_from_syspath F syspath else RErr e
        | None => RErr e
        end
    | RPanic => RPanic
    end in
  n <- sysname ;; purge n.

End Main.

(** ** [main.rs]: the listing commands *)

Definition DEFAULT_BPF_DIR : rstr := lit "/usr/local/lib/firmware/hid/bpf".

(** [default_bpf_dir]. *)
Definition default_bpf_dir (F : fs) : rstr :=
  if path_exists F (lit "target/bpf") then lit "target/bpf" else DEFAULT_BPF_DIR.

(** [str::ends_with]. *)
Definition ends_with (s suffix : rstr) : bool :=
  Nat.leb (List.length suffix) (List.length s)
  && rstr_eqb (skipn (List.length s - List.length suffix) s) suffix.

(** U+FFFD, the replacement character, in UTF-8. *)
Definition replacement_char : rstr :=
  [ascii_of_N 239; ascii_of_N 191; ascii_of_N 189].

(** [OsStr::to_string_lossy] ([String::from_utf8_lossy]): well-formed
    sequences are kept; each maximal prefix of a well-formed sequence that
    is cut short (a byte that cannot start one, a lead byte followed by a
    byte out of range, the end of the input) becomes one
    [replacement_char], as [Utf8Chunks] splits it. *)
Fixpoint to_string_lossy (s : rstr) : rstr :=
  match s with
  | [] => []
  | c :: r =>
      let b := byte_of c in
      if (b <? 128)%N then c :: to_string_lossy r
      else if (194 <=? b)%N && (b <=? 223)%N then
        match r with
        | d :: r' =>
            if is_continuation d then c :: d :: to_string_lossy r'
            else replacement_char ++ to_string_lossy r
        | [] => replacement_char
        end
      else if (224 <=? b)%N && (b <=? 239)%N then
        match r with
        | d :: r' =>
            if is_continuation d && utf8_second_ok c d then
              match r' with
              | e :: r'' =>
                  if is_continuation e then c :: d :: e :: to_string_lossy r''
                  else replacement_char ++ to_string_lossy r'
              | [] => replacement_char
              end
            else replacement_char ++ to_string_lossy r
        | [] => replacement_char
        end
      else if (240 <=? b)%N && (b <=? 244)%N then
        match r with
        | d :: r' =>
            if is_continuation d && utf8_second_ok c d then
              match r' with
              | e :: r'' =>
                  if is_continuation e then
                    match r'' with
                    | f :: r''' =>
                        if is_continuation f then c :: d :: e :: f :: to_string_lossy r'''
                        else replacement_char ++ to_string_lossy r''
                    | [] => replacement_char
                    end
                  else replacement_char ++ to_string_lossy r'
              | [] => replacement_char
              end
            else replacement_char ++ to_string_lossy r
        | [] => replacement_char
        end
      else replacement_char ++ to_string_lossy r
  end.

(** Four characters of [[A-Z0-9]] at the start of [s], and the rest. *)
Definition take_re4 (s : rstr) : option (rstr * rstr) :=
  match s with
  | a :: b :: c :: d :: r =>
      if forallb is_re_char [a; b; c; d] then Some ([a; b; c; d], r) else None
  | _ => None
  end.

(** [hid:b([A-Z0-9]{4})g([A-Z0-9]{4})v0000([A-Z0-9]{4})p0000([A-Z0-9]{4})]
    at the start of [s]: its four groups. *)
Definition modalias_caps_at (s : rstr) : option (rstr * rstr * rstr * rstr) :=
  match strip_prefix (lit "hid:b") s with
  | None => None
  | Some r1 =>
  match take_re4 r1 with
  | None => None
  | Some (bus, r2) =>
  match strip_prefix (lit "g") r2 with
  | None => None
  | Some r3 =>
  match take_re4 r3 with
  | None => None
  | Some (group, r4) =>
  match strip_prefix (lit "v0000") r4 with
  | None => None
  | Some r5 =>
  match take_re4 r5 with
  | None => None
  | Some (vid, r6) =>
  match strip_prefix (lit "p0000") r6 with
  | None => None
  | Some r7 =>
  match take_re4 r7 with
  | None => None
  | Some (pid, _) => Some (bus, group, vid, pid)
  end end end end end end end end.

(** [Regex::captures]: the leftmost match (the pattern has a fixed
    length, so the match at a position is unique). *)
Fixpoint modalias_captures (s : rstr) : option (rstr * rstr * rstr * rstr) :=
  match modalias_caps_at s with
  | Some caps => Some caps
  | None => match s with [] => None | _ :: s' => modalias_captures s' end
  end.

Definition bus_names : list (rstr * rstr) :=
  [(lit "0001", lit "BUS_PCI"); (lit "0002", lit "BUS_ISAPNP");
   (lit "0003", lit "BUS_USB"); (lit "0004", lit "BUS_HIL");
   (lit "0005", lit "BUS_BLUETOOTH"); (lit "0006", lit "BUS_VIRTUAL");
   (lit "0010", lit "BUS_ISA"); (lit "0011", lit "BUS_I8042");
   (lit "0012", lit "BUS_XTKBD"); (lit "0013", lit "BUS_RS232");
   (lit "0014", lit "BUS_GAMEPORT"); (lit "0015", lit "BUS_PARPORT");
   (lit "0016", lit "BUS_AMIGA"); (lit "0017", lit "BUS_ADB");
   (lit "0018", lit "BUS_I2C"); (lit "0019", lit "BUS_HOST");
   (lit "001A", lit "BUS_GSC"); (lit "001B", lit "BUS_ATARI");
   (lit "001C", lit "BUS_SPI"); (lit "001D", lit "BUS_RMI");
   (lit "001E", lit "BUS_CEC"); (lit "001F", lit "BUS_INTEL_ISHTP");
   (lit "0020", lit "BUS_AMD_SFH")].

Definition group_names : list (rstr * rstr) :=
  [(lit "0001", lit "HID_GROUP_GENERIC"); (lit "0002", lit "HID_GROUP_MULTITOUCH");
   (lit "0003", lit "HID_GROUP_SENSOR_HUB"); (lit "0004", lit "HID_GROUP_MULTITOUCH_WIN_8");
   (lit "0100", lit "HID_GROUP_RMI"); (lit "0101", lit "HID_GROUP_WACOM");
   (lit "0102", lit "HID_GROUP_LOGITECH_DJ_DEVICE"); (lit "0103", lit "HID_GROUP_STEAM");
   (lit "0104", lit "HID_GROUP_LOGITECH_27MHZ_DEVICE"); (lit "0105", lit "HID_GROUP_VIVALDI")].

(** [match bus { "0001" => "BUS_PCI", ..., _ => bus }]. *)
Definition bus_name (bus : rstr) : rstr :=
  match assoc bus bus_names with Some n => n | None => bus end.

Definition group_name (group : rstr) : rstr :=
  match assoc group group_names with Some n => n | None => group end.

Definition HID_DEVICES_DIR : rstr := lit "/sys/bus/hid/devices".

(** The body of the loop of [cmd_list_devices] for one entry: the lines it
    prints.  [HID_NAME] is unwrapped before [MODALIAS] is looked at. *)
Definition list_device (U : udev) (syspath : rstr) : outcome (list rstr) :=
  device <- device_from_syspath U syspath ;;
  match property_value device (lit "HID_NAME") with
  | None => RPanic
  | Some name =>
      if negb (utf8_valid name) then RPanic else
      match property_value device (lit "MODALIAS") with
      | None => ROk []
      | Some modalias =>
          if negb (utf8_valid modalias) then RPanic else
          match modalias_captures modalias with
          | None => ROk []
          | Some (bus, group, vid, pid) =>
              if negb (utf8_valid syspath) then RPanic else
              ROk [syspath;
                   lit "  - name: " ++ name;
                   lit "  - device entry: HID_DEVICE(" ++ bus_name bus ++ lit ", "
                     ++ group_name group ++ lit ", 0x" ++ vid ++ lit ", 0x" ++ pid
                     ++ lit ")";
                   []]
          end
      end
  end.

(** The loop over the entries ([entry.unwrap().path()]): the lines
    printed, and the outcome. *)
Fixpoint list_devices_go (U : udev) (entries : list (option rstr))
    : list rstr * outcome unit :=
  match entries with
  | [] => ([], ROk tt)
  | None :: _ => ([], RPanic)
  | Some syspath :: rest =>
      match list_device U syspath with
      | ROk lines => let (out, r) := list_devices_go U rest in (lines ++ out, r)
      | RErr e => ([], RErr e)
      | RPanic => ([], RPanic)
      end
  end.

Section Listing.

(** The error [std::fs::read_dir] reports for a directory it cannot read. *)
Variable read_dir_error : rstr -> io_error.

(** [cmd_list_bpf_programs]: the lines printed, and the outcome. *)
Definition cmd_list_bpf_programs (F : fs) (bpfdir : option rstr)
    : list rstr * outcome unit :=
  let dir := match bpfdir with Some d => d | None => default_bpf_dir F end in
  if negb (utf8_valid dir) then ([], RPanic) else
  let header := lit "Showing available BPF files in " ++ dir ++ lit ":" in
  match fs_read_dir F dir with
  | None => ([header], RErr (read_dir_error dir))
  | Some elems =>
      (header :: map (fun name => lit " " ++ name)
                   (filter (fun name => ends_with name (lit ".bpf.o"))
                      (map to_string_lossy (HidUdev.entry_names elems))),
       ROk tt)
  end.

(** [cmd_list_devices]. *)
Definition cmd_list_devices (F : fs) (U : udev) : list rstr * outcome unit :=
  match fs_read_dir F HID_DEVICES_DIR with
  | None => ([], RErr (read_dir_error HID_DEVICES_DIR))
  | Some elems => list_devices_go U (map (option_map (join HID_DEVICES_DIR)) elems)
  end.

End Listing.

(** ** Sample devices and file systems *)

Definition kbd_hid : device :=
  Device (lit "/sys/devices/pci0000:00/usb1/1-1/1-1:1.0/0003:045E:07A5.000B")
    (lit "0003:045E:07A5.000B") (Some (lit "hid"))
    [(lit "MODALIAS", lit "hid:b0003g0001v0000045Ep000007A5")] None.

Definition kbd_input : device :=
  Device (lit "/sys/devices/pci0000:00/usb1/1-1/1-1:1.0/0003:045E:07A5.000B/input/input5")
    (lit "input5") (Some (lit "input")) [] (Some kbd_hid).

Definition usb_intf : device :=
  Device (lit "/sys/devices/pci0000:00/usb1/1-1/1-1:1.0") (lit "1-1:1.0")
    (Some (lit "usb")) [] None.

(** A device record without a [MODALIAS] property. *)
Definition bare_hid : device :=
  Device (lit "/sys/devices/virtual/misc/uhid/0003:0001:0001.0002")
    (lit "0003:0001:0001.0002") (Some (lit "hid")) [] None.

(** A device record whose sysname ends in a non-hexadecimal sequence. *)
Definition odd_hid : device :=
  Device (lit "/sys/devices/virtual/misc/uhid/0003:045E:07A5.00ZZ")
    (lit "0003:045E:07A5.00ZZ") (Some (lit "hid")) [] None.

Definition U0 : udev := {|
  device_from_syspath := fun p =>
    if rstr_eqb p (dev_syspath kbd_input) then ROk kbd_input
    else if rstr_eqb p (dev_syspath usb_intf) then ROk usb_intf
    else RErr (OsError ENODEV) |}.

(** A program directory [/d] holding three candidate files. *)
Definition F1 : fs := {|
  path_exists := fun p => rstr_eqb p (lit "/d");
  path_is_file := fun p => negb (rstr_eqb p (lit "/d"));
  fs_read_dir := fun p =>
    if rstr_eqb p (lit "/d")
    then Some [Some (lit "b0003g*v0000045Ep*_kbd.bpf.o");
               Some (lit "b*g*v*p*_all.bpf.o");
               Some (lit "b0005g*v*p*_bt.bpf.o")]
    else None;
  fs_read_link := fun _ => None |}.

(** A file system with nothing in it. *)
Definition F_empty : fs := {|
  path_exists := fun _ => false;
  path_is_file := fun _ => false;
  fs_read_dir := fun _ => None;
  fs_read_link := fun _ => None |}.

(** A named keyboard, as listed under [/sys/bus/hid/devices]. *)
Definition named_kbd : device :=
  Device (lit "/sys/devices/pci0000:00/usb1/1-1/1-1:1.0/0003:045E:07A5.000B")
    (lit "0003:045E:07A5.000B") (Some (lit "hid"))
    [(lit "HID_NAME", lit "Microsoft Natural Keyboard");
     (lit "MODALIAS", lit "hid:b0003g0001v0000045Ep000007A5")] None.

(** A named device whose vendor id does not fit in four digits. *)
Definition wide_hid : device :=
  Device (lit "/sys/devices/virtual/misc/uhid/0003:0000:0001.0003")
    (lit "0003:0000:0001.0003") (Some (lit "hid"))
    [(lit "HID_NAME", lit "Wide");
     (lit "MODALIAS", lit "hid:b0003g0001v00010000p00000001")] None.

Definition U1 : udev := {|
  device_from_syspath := fun p =>
    if rstr_eqb p (join HID_DEVICES_DIR (lit "0003:045E:07A5.000B")) then ROk named_kbd
    else if rstr_eqb p (join HID_DEVICES_DIR (lit "0003:0001:0001.0002")) then ROk bare_hid
    else if rstr_eqb p (join HID_DEVICES_DIR (lit "0003:0000:0001.0003")) then ROk wide_hid
    else RErr (OsError ENODEV) |}.

(** ** Specification-side notions *)

(** The chain of proper ancestors of a device, nearest first. *)
Fixpoint ancestors (d : device) : list device :=
  match dev_parent d with
  | None => []
  | Some p => p :: ancestors p
  end.

Definition has_subsystem (sub : rstr) (d : device) : bool :=
  match dev_subsystem d with
  | Some s => rstr_eqb s sub
  | None => false
  end.

(** ** Lemmas *)

Lemma rstr_eqb_eq (a b : rstr) : rstr_eqb a b = true <-> a = b.
Proof.
  unfold rstr_eqb; destruct (list_eq_dec ascii_dec a b); split; congruence.
Qed.

Lemma parent_with_subsystem_find (d : device) (sub : rstr) :
  parent_with_subsystem d sub = find (has_subsystem sub) (ancestors d).
Proof.
  revert d; fix IH 1; intros [sp sn ss ps [p|]]; simpl; [|reflexivity].
  unfold has_subsystem at 1.
  destruct (dev_subsystem p) as [s|]; [destruct (rstr_eqb s sub)|]; auto.
Qed.

Lemma find_first {A} (f : A -> bool) (pre : list A) (a : A) (post : list A) :
  Forall (fun x => f x = false) pre -> f a = true ->
  find f (pre ++ a :: post) = Some a.
Proof.
  induction 1; simpl; [intros ->; reflexivity|].
  intros Ha; rewrite H; auto.
Qed.

Lemma find_none {A} (f : A -> bool) (l : list A) :
  Forall (fun x => f x = false) l -> find f l = None.
Proof. induction 1; simpl; [reflexivity|]; rewrite H; auto. Qed.

Lemma has_subsystem_hid (d : device) :
  has_subsystem (lit "hid") d = true <-> dev_subsystem d = Some (lit "hid").
Proof.
  unfold has_subsystem; destruct (dev_subsystem d) as [s|]; split; intro H;
    try discriminate.
  - apply rstr_eqb_eq in H; subst; reflexivity.
  - injection H as ->; apply rstr_eqb_eq; reflexivity.
Qed.

Lemma has_subsystem_hid_false (d : device) :
  has_subsystem (lit "hid") d = false <-> dev_subsystem d <> Some (lit "hid").
Proof.
  rewrite <- has_subsystem_hid; destruct (has_subsystem _ d); split;
    congruence.
Qed.

(** ** Claims *)

(** C4: resolution of a path whose device record exists uses the device
    itself when its subsystem is [hid], and otherwise the nearest ancestor
    whose subsystem is [hid]; when there is none it fails with the
    "not a HID device" error ([InvalidData], the spec's NotATargetDevice). *)
Theorem from_syspath_nearest_hid (U : udev) (syspath : rstr) (d : device)
    (Hd : device_from_syspath U syspath = ROk d) :
  (dev_subsystem d = Some (lit "hid") ->
     HidUdev.from_syspath U syspath = ROk (HidUdev.mk d)) /\
  (dev_subsystem d <> Some (lit "hid") ->
     (forall pre a post,
        ancestors d = pre ++ a :: post ->
        Forall (fun x => dev_subsystem x <> Some (lit "hid")) pre ->
        dev_subsystem a = Some (lit "hid") ->
        HidUdev.from_syspath U syspath = ROk (HidUdev.mk a)) /\
     (Forall (fun x => dev_subsystem x <> Some (lit "hid")) (ancestors d) ->
        HidUdev.from_syspath U syspath = RErr (Custom InvalidData))).
Proof.
  unfold HidUdev.from_syspath; rewrite Hd; cbn [obind].
  change (match property_value d (lit "SUBSYSTEM") with
          | Some sub => rstr_eqb sub (lit "hid") | None => false end)
    with (has_subsystem (lit "hid") d).
  rewrite parent_with_subsystem_find.
  split.
  - intros H; apply has_subsystem_hid in H; rewrite H; reflexivity.
  - intros Hn; apply has_subsystem_hid_false in Hn; rewrite Hn; split.
    + intros pre a post Ha Hpre Hhid; rewrite Ha, find_first; [reflexivity| |].
      * eapply Forall_impl; [|exact Hpre]; intros x Hx; apply has_subsystem_hid_false; exact Hx.
      * apply has_subsystem_hid; exact Hhid.
    + intros Hall; rewrite find_none; [reflexivity|].
      eapply Forall_impl; [|exact Hall]; intros x Hx; apply has_subsystem_hid_false; exact Hx.
Qed.

(** C4, on a concrete tree: an input node resolves to its HID parent. *)
Lemma from_syspath_nearest_hid_witness :
  device_from_syspath U0 (dev_syspath kbd_input) = ROk kbd_input /\
  HidUdev.from_syspath U0 (dev_syspath kbd_input) = ROk (HidUdev.mk kbd_hid).
Proof.
  split; [reflexivity|].
  destruct (from_syspath_nearest_hid U0 (dev_syspath kbd_input) kbd_input eq_refl)
    as [_ H2].
  apply (proj1 (H2 ltac:(discriminate)) [] kbd_hid []);
    [reflexivity | constructor | reflexivity].
Defined.

(** C5: in the remove flow, a resolution failure with [ENODEV] (the
    device record no longer exists) falls back to name extraction from the
    raw path and then purges under the extracted name; any other resolution
    failure is the flow's result unchanged. *)
Theorem cmd_remove_enodev_fallback (purge : rstr -> outcome unit)
    (U : udev) (F : fs) (syspath : rstr) :
  (HidUdev.from_syspath U syspath = RErr (OsError ENODEV) ->
     cmd_remove purge U F syspath = (n <- sysname_from_syspath F syspath ;; purge n)) /\
  (forall e, HidUdev.from_syspath U syspath = RErr e ->
     raw_os_error e <> Some ENODEV ->
     cmd_remove purge U F syspath = RErr e).
Proof.
  unfold cmd_remove; split.
  - intros ->; reflexivity.
  - intros e -> Hne; destruct e as [n|k]; simpl; [|reflexivity].
    destruct (Z.eqb_spec n ENODEV); [subst; contradiction|reflexivity].
Qed.

Lemma cmd_remove_enodev_fallback_witness :
  let gone := lit "/sys/bus/hid/devices/0003:04F3:2D4A.0001" in
  let purge := fun n : rstr => if rstr_eqb n (lit "0003:04F3:2D4A.0001")
                               then ROk tt else RErr (OsError EACCES) in
  cmd_remove purge U0 F1 gone = ROk tt /\
  cmd_remove purge U0 F1 (dev_syspath usb_intf) = RErr (Custom InvalidData).
Proof.
  intros gone purge; split.
  - rewrite (proj1 (cmd_remove_enodev_fallback purge U0 F1 gone) eq_refl).
    reflexivity.
  - apply (proj2 (cmd_remove_enodev_fallback purge U0 F1 (dev_syspath usb_intf))
             (Custom InvalidData) eq_refl); discriminate.
Defined.

Lemma continuation_not_digit (c : ascii) :
  is_continuation c = true -> hex_digit_val c = None /\ Ascii.eqb c "+"%char = false.
Proof.
  destruct c as [[][][][][][][][]]; vm_compute; intros;
    first [split; reflexivity | discriminate].
Qed.

Lemma from_str_radix16_continuation (c : ascii) (r : rstr) :
  is_continuation c = true -> from_str_radix16 (c :: r) = None.
Proof.
  intros H; destruct (continuation_not_digit c H) as [H1 H2].
  unfold from_str_radix16; rewrite H2; simpl; rewrite H1; reflexivity.
Qed.

(** C7: with no [MODALIAS] property, [from_udev_device] hands the
    synthesized string ["hid:empty"] to the codec, which rejects it with
    [InvalidData] (MalformedIdentity); [HidUdev::modalias] unwraps that
    result, so reading the identity panics. *)
Theorem modalias_absent_property (h : HidUdev.t)
    (Hnone : property_value (HidUdev.udev_device h) (lit "MODALIAS") = None) :
  Modalias.from_udev_device (HidUdev.udev_device h) = Modalias.from_str (lit "hid:empty") /\
  Modalias.from_str (lit "hid:empty") = RErr (Custom InvalidData) /\
  HidUdev.modalias h = RPanic.
Proof.
  unfold HidUdev.modalias, Modalias.from_udev_device; rewrite Hnone.
  split; [reflexivity | split; reflexivity].
Qed.

Lemma modalias_absent_property_witness :
  property_value bare_hid (lit "MODALIAS") = None /\
  HidUdev.modalias (HidUdev.mk bare_hid) = RPanic.
Proof.
  split; [reflexivity|].
  exact (proj2 (proj2 (modalias_absent_property (HidUdev.mk bare_hid) eq_refl))).
Defined.

(** C7 as stated fails: reading the identity of a device without the
    property does fail (it panics). *)
Lemma modalias_absent_property_counterexample :
  property_value bare_hid (lit "MODALIAS") = None /\
  HidUdev.modalias (HidUdev.mk bare_hid) = RPanic.
Proof. split; vm_compute; reflexivity. Qed.

Lemma str_slice_from_app (a b : rstr) :
  List.length a = 15 ->
  str_slice_from (a ++ b) 15 =
  match b with
  | [] => Some []
  | c :: _ => if is_continuation c then None else Some b
  end.
Proof.
  intros Ha; unfold str_slice_from, str_slice, is_char_boundary.
  rewrite length_app, Ha.
  rewrite nth_error_app2 by lia; rewrite Ha, Nat.sub_diag.
  rewrite (proj2 (nth_error_None (a ++ b) (15 + List.length b)))
    by (rewrite length_app; lia).
  rewrite Nat.eqb_refl, skipn_app, Ha, Nat.sub_diag.
  rewrite (skipn_all2 a) by lia; simpl.
  rewrite Nat.sub_0_r, firstn_all, Nat.leb_refl; simpl.
  destruct b as [|c r]; simpl; [reflexivity|].
  destruct (is_continuation c); reflexivity.
Qed.

(** C8: [HidUdev::id] reads the sysname from byte 15 on (the trailing
    four digits of a well-formed sysname) as hexadecimal; a valid value is
    returned, an invalid one makes the [unwrap] panic: [id] never returns
    an error. *)
Theorem id_parses_from_offset_15 (h : HidUdev.t) (a b : rstr)
    (Hs : dev_sysname (HidUdev.udev_device h) = a ++ b)
    (Ha : List.length a = 15)
    (Hu : utf8_valid (a ++ b) = true) :
  (forall v, from_str_radix16 b = Some v -> HidUdev.id h = ROk v) /\
  (from_str_radix16 b = None -> HidUdev.id h = RPanic) /\
  (forall e, HidUdev.id h <> RErr e).
Proof.
  assert (Hid : HidUdev.id h =
                match from_str_radix16 b with Some v => ROk v | None => RPanic end).
  { unfold HidUdev.id, HidUdev.sysname; rewrite Hs, Hu; cbn [obind].
    rewrite str_slice_from_app by exact Ha.
    destruct b as [|c r]; [reflexivity|].
    destruct (is_continuation c) eqn:Hc; [|destruct (from_str_radix16 (c :: r)); reflexivity].
    rewrite from_str_radix16_continuation by exact Hc; reflexivity. }
  rewrite Hid; split; [intros v ->; reflexivity|].
  split; [intros ->; reflexivity|].
  destruct (from_str_radix16 b); discriminate.
Qed.

Lemma id_parses_from_offset_15_witness :
  dev_sysname kbd_hid = lit "0003:045E:07A5." ++ lit "000B" /\
  HidUdev.id (HidUdev.mk kbd_hid) = ROk 11%N.
Proof.
  split; [reflexivity|].
  apply (proj1 (id_parses_from_offset_15 (HidUdev.mk kbd_hid)
                  (lit "0003:045E:07A5.") (lit "000B") eq_refl eq_refl eq_refl)).
  reflexivity.
Defined.

(** C8 as stated fails: a sysname whose trailing segment is not
    hexadecimal makes [id] panic instead of returning an error. *)
Lemma id_malformed_counterexample :
  HidUdev.id (HidUdev.mk odd_hid) = RPanic.
Proof. vm_compute; reflexivity. Qed.

(** C9: when the program directory does not exist,
    [load_bpf_from_directory] succeeds without reading the identity,
    matching anything or calling the loader. *)
Theorem load_missing_dir_noop (hidbpf_new : outcome unit)
    (load_programs : rstr -> HidUdev.t -> outcome unit)
    (F : fs) (h : HidUdev.t) (bpf_dir : rstr)
    (Hmissing : path_exists F bpf_dir = false) :
  HidUdev.load_bpf_from_directory hidbpf_new load_programs F h bpf_dir = ([], ROk tt).
Proof.
  unfold HidUdev.load_bpf_from_directory; rewrite Hmissing; reflexivity.
Qed.

Lemma load_missing_dir_noop_witness :
  path_exists F_empty (lit "/usr/local/lib/firmware/hid/bpf") = false /\
  HidUdev.load_bpf_from_directory RPanic (fun _ _ => RPanic) F_empty
    (HidUdev.mk bare_hid) (lit "/usr/local/lib/firmware/hid/bpf") = ([], ROk tt).
Proof.
  split; [reflexivity|].
  apply load_missing_dir_noop; reflexivity.
Defined.

(** C10: [remove_bpf_objects] asks [remove_dir_all] to delete the bpffs
    subtree of the device's sysname and returns [Ok] whatever that call
    returned: absence and every other failure are discarded. *)
Theorem remove_bpf_objects_discards (fs_state : Type)
    (get_bpffs_path : rstr -> rstr)
    (remove_dir_all : fs_state -> rstr -> fs_state * outcome unit)
    (st : fs_state) (h : HidUdev.t)
    (Hu : utf8_valid (dev_sysname (HidUdev.udev_device h)) = true) :
  HidUdev.remove_bpf_objects fs_state get_bpffs_path remove_dir_all st h =
  (fst (remove_dir_all st (get_bpffs_path (dev_sysname (HidUdev.udev_device h)))), ROk tt).
Proof.
  unfold HidUdev.remove_bpf_objects, HidUdev.sysname; rewrite Hu.
  destruct (remove_dir_all _ _); reflexivity.
Qed.

Lemma remove_bpf_objects_discards_witness :
  utf8_valid (dev_sysname kbd_hid) = true /\
  HidUdev.remove_bpf_objects (list rstr) (fun n => lit "/sys/fs/bpf/hid/" ++ n)
    (fun st p => (p :: st, RErr (OsError EACCES))) [] (HidUdev.mk kbd_hid) =
  ([lit "/sys/fs/bpf/hid/0003:045E:07A5.000B"], ROk tt).
Proof.
  split; [reflexivity|].
  rewrite (remove_bpf_objects_discards (list rstr) _ _ [] (HidUdev.mk kbd_hid) eq_refl).
  reflexivity.
Defined.

(** C10 as stated fails: a purge failure other than absence ([EACCES])
    is not surfaced; the method returns [Ok]. *)
Lemma remove_bpf_objects_counterexample :
  HidUdev.remove_bpf_objects unit (fun n => n)
    (fun st _ => (st, RErr (OsError EACCES))) tt (HidUdev.mk kbd_hid) = (tt, ROk tt).
Proof. vm_compute; reflexivity. Qed.

Lemma load_each_all_ok (load_programs : rstr -> HidUdev.t -> outcome unit)
    (h : HidUdev.t) (l : list rstr) :
  Forall (fun p => load_programs p h = ROk tt) l ->
  HidUdev.load_each load_programs h l = (l, ROk tt).
Proof.
  induction 1 as [|p l Hp _ IH]; simpl; [reflexivity|].
  rewrite Hp, IH; reflexivity.
Qed.

Lemma load_each_first_failure (load_programs : rstr -> HidUdev.t -> outcome unit)
    (h : HidUdev.t) (pre : list rstr) (p : rstr) (post : list rstr) :
  Forall (fun q => load_programs q h = ROk tt) pre ->
  load_programs p h <> ROk tt ->
  HidUdev.load_each load_programs h (pre ++ p :: post) = (pre ++ [p], RPanic).
Proof.
  intros Hpre Hp; induction Hpre as [|q l Hq _ IH]; simpl.
  - destruct (load_programs p h) as [[]| |]; [contradiction|reflexivity|reflexivity].
  - rewrite Hq, IH; reflexivity.
Qed.

(** C6: for a non-empty list of matches, once the loader is created the
    candidates are handed to it one at a time in order; the first
    candidate whose load fails makes the [unwrap] panic: no later
    candidate is attempted and no error value is returned.  If creating
    the loader fails, nothing is loaded and the invocation panics. *)
Theorem load_matches_first_failure_panics (hidbpf_new : outcome unit)
    (load_programs : rstr -> HidUdev.t -> outcome unit)
    (h : HidUdev.t) (matches : list rstr) (Hne : matches <> []) :
  (hidbpf_new = ROk tt ->
     (Forall (fun p => load_programs p h = ROk tt) matches ->
        HidUdev.load_matches hidbpf_new load_programs h matches = (matches, ROk tt)) /\
     (forall pre p post,
        matches = pre ++ p :: post ->
        Forall (fun q => load_programs q h = ROk tt) pre ->
        load_programs p h <> ROk tt ->
        HidUdev.load_matches hidbpf_new load_programs h matches = (pre ++ [p], RPanic))) /\
  (hidbpf_new <> ROk tt ->
     HidUdev.load_matches hidbpf_new load_programs h matches = ([], RPanic)).
Proof.
  unfold HidUdev.load_matches.
  destruct matches as [|m ms]; [contradiction|].
  split.
  - intros ->; split.
    + apply load_each_all_ok.
    + intros pre p post Heq Hpre Hp; rewrite Heq.
      apply load_each_first_failure; assumption.
  - intros Hn; destruct hidbpf_new as [[]| |]; [contradiction|reflexivity|reflexivity].
Qed.

(** A directory [/d] whose three entries are all matched by the
    identity of [kbd_hid]. *)
Definition F2 : fs := {|
  path_exists := fun p => rstr_eqb p (lit "/d");
  path_is_file := fun p => negb (rstr_eqb p (lit "/d"));
  fs_read_dir := fun p =>
    if rstr_eqb p (lit "/d")
    then Some [Some (lit "b0003g*v*p*_a.bpf.o");
               Some (lit "b*g0001v*p*_b.bpf.o");
               Some (lit "b*g*v0000045Ep*_c.bpf.o")]
    else None;
  fs_read_link := fun _ => None |}.

Definition fail_on_b (p : rstr) (_ : HidUdev.t) : outcome unit :=
  if rstr_eqb p (lit "/d/b*g0001v*p*_b.bpf.o") then RErr (OsError EACCES) else ROk tt.

Lemma load_matches_first_failure_panics_witness :
  HidUdev.select_matches F2 (lit "/d") (Modalias.mk 3 1 1118 1957) =
    ROk [lit "/d/b0003g*v*p*_a.bpf.o"; lit "/d/b*g0001v*p*_b.bpf.o";
         lit "/d/b*g*v0000045Ep*_c.bpf.o"] /\
  HidUdev.load_matches (ROk tt) fail_on_b (HidUdev.mk kbd_hid)
    [lit "/d/b0003g*v*p*_a.bpf.o"; lit "/d/b*g0001v*p*_b.bpf.o";
     lit "/d/b*g*v0000045Ep*_c.bpf.o"] =
  ([lit "/d/b0003g*v*p*_a.bpf.o"; lit "/d/b*g0001v*p*_b.bpf.o"], RPanic).
Proof.
  split; [vm_compute; reflexivity|].
  apply (proj2 (proj1 (load_matches_first_failure_panics (ROk tt) fail_on_b
           (HidUdev.mk kbd_hid)
           [lit "/d/b0003g*v*p*_a.bpf.o"; lit "/d/b*g0001v*p*_b.bpf.o";
            lit "/d/b*g*v0000045Ep*_c.bpf.o"] ltac:(discriminate)) eq_refl)
           [lit "/d/b0003g*v*p*_a.bpf.o"] (lit "/d/b*g0001v*p*_b.bpf.o")
           [lit "/d/b*g*v0000045Ep*_c.bpf.o"]).
  - reflexivity.
  - constructor; [reflexivity | constructor].
  - intro H; vm_compute in H; discriminate H.
Defined.

(** C6 as stated fails: the loader's failure on a candidate is not the
    add flow's error; [load_bpf_from_directory] panics. *)
Lemma load_failure_not_propagated_counterexample :
  fail_on_b (lit "/d/b*g0001v*p*_b.bpf.o") (HidUdev.mk kbd_hid) = RErr (OsError EACCES) /\
  HidUdev.load_bpf_from_directory (ROk tt) fail_on_b F2 (HidUdev.mk kbd_hid) (lit "/d") =
  ([lit "/d/b0003g*v*p*_a.bpf.o"; lit "/d/b*g0001v*p*_b.bpf.o"], RPanic).
Proof. split; vm_compute; reflexivity. Qed.

Lemma utf8_valid_ascii (s : rstr) :
  Forall (fun c => (byte_of c <? 128)%N = true) s -> utf8_valid s = true.
Proof.
  induction 1 as [|c s Hc _ IH]; [reflexivity|].
  cbn [utf8_valid]; rewrite Hc; exact IH.
Qed.

Lemma re_char_ascii (c : ascii) :
  is_re_char c = true -> (byte_of c <? 128)%N = true.
Proof.
  destruct c as [[][][][][][][][]]; vm_compute; intros;
    first [reflexivity | discriminate].
Qed.

Lemma eqb_ascii_small (c d : ascii) :
  Ascii.eqb c d = true -> (byte_of d <? 128)%N = true -> (byte_of c <? 128)%N = true.
Proof. intros H; apply Ascii.eqb_eq in H; subst; auto. Qed.

Lemma layout_utf8 (s : rstr) :
  List.length s = 19 -> layout_at s = true -> utf8_valid s = true.
Proof.
  intros Hl Hs; apply utf8_valid_ascii.
  do 19 (destruct s as [|?c s]; [discriminate Hl|]).
  destruct s; [|discriminate Hl].
  cbn [layout_at forallb] in Hs.
  repeat match goal with
         | H : (_ && _) = true |- _ => apply andb_prop in H; destruct H
         end.
  repeat constructor;
    first [ apply re_char_ascii; assumption
          | eapply eqb_ascii_small; [eassumption | reflexivity] ].
Qed.

(** C3: fallback extraction takes the last component of the path (after
    following one symbolic link).  A component that is, as a whole, the
    layout [XXXX:XXXX:XXXX.XXXX] with each [X] an uppercase letter [A-Z]
    or a digit is accepted and returned; a component with no such run
    anywhere in it, or a path without a last component, fails with
    [EINVAL] (InvalidInput). *)
Theorem sysname_fallback_layout (F : fs) (syspath : rstr) :
  let abspath := match fs_read_link F syspath with Some t => t | None => syspath end in
  (file_name abspath = None -> sysname_from_syspath F syspath = RErr (OsError EINVAL)) /\
  (forall seg, file_name abspath = Some seg ->
     (List.length seg = 19 -> layout_at seg = true ->
        sysname_from_syspath F syspath = ROk seg) /\
     (regex_captures seg = false ->
        sysname_from_syspath F syspath = RErr (OsError EINVAL))).
Proof.
  intros abspath; unfold sysname_from_syspath; fold abspath; split.
  - intros ->; reflexivity.
  - intros seg ->; split.
    + intros Hl Hs; rewrite (layout_utf8 seg Hl Hs).
      assert (Hr : regex_captures seg = true).
      { destruct seg; [discriminate Hs|]; cbn [regex_captures]; rewrite Hs; reflexivity. }
      rewrite Hr; reflexivity.
    + intros Hr; rewrite Hr, andb_false_r; reflexivity.
Qed.

(** The [hidraw] class link of a HID device, resolved to its node. *)
Definition F_link : fs := {|
  path_exists := fun _ => true;
  path_is_file := fun _ => false;
  fs_read_dir := fun _ => None;
  fs_read_link := fun p =>
    if rstr_eqb p (lit "/sys/class/hidraw/hidraw0/device")
    then Some (lit "../../../0003:04F3:2D4A.0001") else None |}.

Lemma sysname_fallback_layout_witness :
  file_name (lit "../../../0003:04F3:2D4A.0001") = Some (lit "0003:04F3:2D4A.0001") /\
  sysname_from_syspath F_link (lit "/sys/class/hidraw/hidraw0/device") =
    ROk (lit "0003:04F3:2D4A.0001") /\
  sysname_from_syspath F_link (lit "/sys/blah/0003:04F3:2D4A-0001") = RErr (OsError EINVAL).
Proof.
  split; [reflexivity|]; split.
  - apply (proj1 (proj2 (sysname_fallback_layout F_link (lit "/sys/class/hidraw/hidraw0/device"))
             (lit "0003:04F3:2D4A.0001") eq_refl)); reflexivity.
  - apply (proj2 (proj2 (sysname_fallback_layout F_link (lit "/sys/blah/0003:04F3:2D4A-0001"))
             (lit "0003:04F3:2D4A-0001") eq_refl)); reflexivity.
Defined.

(** C3 as stated fails three ways: a lowercase-hex name is rejected, a
    component merely containing the layout is accepted, and non-hex
    capitals are accepted. *)
Lemma sysname_fallback_counterexample :
  sysname_from_syspath F_empty (lit "/sys/bus/hid/devices/0003:04f3:2d4a.0001") =
    RErr (OsError EINVAL) /\
  sysname_from_syspath F_empty (lit "/sys/blah/x0003:04F3:2D4A.0001") =
    ROk (lit "x0003:04F3:2D4A.0001") /\
  sysname_from_syspath F_empty (lit "/sys/blah/GGGG:GGGG:GGGG.GGGG") =
    ROk (lit "GGGG:GGGG:GGGG.GGGG").
Proof. vm_compute; repeat split. Qed.

(** *** The codec *)

(** The value of a string of hexadecimal digits (spec side: "the
    substring interpreted as hex"). *)
Definition hex_step (acc : N) (c : ascii) : N :=
  (acc * 16 + match hex_digit_val c with Some d => d | None => 0 end)%N.

Definition hex_value (l : rstr) : N := fold_left hex_step l 0%N.

Lemma hex_digit_val_lt (c : ascii) (d : N) :
  hex_digit_val c = Some d -> (d < 16)%N.
Proof.
  destruct c as [[][][][][][][][]]; vm_compute; intros H;
    first [discriminate H | injection H as <-; reflexivity].
Qed.

Lemma hex_digit_props (c : ascii) :
  is_hex_digit c = true ->
  is_continuation c = false /\ Ascii.eqb c "+"%char = false /\
  (byte_of c <? 128)%N = true.
Proof.
  destruct c as [[][][][][][][][]]; vm_compute; intros H;
    first [discriminate H | repeat split].
Qed.

Lemma ascii_not_continuation (c : ascii) :
  (byte_of c <? 128)%N = true -> is_continuation c = false.
Proof.
  destruct c as [[][][][][][][][]]; vm_compute; intros H;
    first [discriminate H | reflexivity].
Qed.

Lemma fold_hex_ge (l : rstr) (acc : N) : (acc <= fold_left hex_step l acc)%N.
Proof.
  revert acc; induction l as [|c l IH]; intros acc; simpl; [lia|].
  specialize (IH (hex_step acc c)); unfold hex_step in *; lia.
Qed.

Lemma fold_hex_bound (l : rstr) (acc : N) :
  Forall (fun c => is_hex_digit c = true) l ->
  (fold_left hex_step l acc < (acc + 1) * 16 ^ N.of_nat (List.length l))%N.
Proof.
  intros Hl; revert acc; induction Hl as [|c l Hc _ IH]; intros acc;
    cbn [fold_left List.length].
  - simpl; lia.
  - specialize (IH (hex_step acc c)).
    unfold is_hex_digit in Hc; destruct (hex_digit_val c) as [d|] eqn:Hd; [|discriminate].
    pose proof (hex_digit_val_lt _ _ Hd) as Hlt.
    assert (Hv : hex_step acc c = (acc * 16 + d)%N) by (unfold hex_step; rewrite Hd; reflexivity).
    rewrite Hv in IH |- *.
    rewrite Nat2N.inj_succ, N.pow_succ_r'.
    assert (0 < 16 ^ N.of_nat (List.length l))%N by (apply N.neq_0_lt_0, N.pow_nonzero; lia).
    nia.
Qed.

Lemma digits_go_hex (l : rstr) (acc : N) :
  Forall (fun c => is_hex_digit c = true) l ->
  (fold_left hex_step l acc < 2 ^ 32)%N ->
  digits_go acc l = Some (fold_left hex_step l acc).
Proof.
  intros Hl; revert acc; induction Hl as [|c l Hc _ IH]; intros acc Hb;
    cbn [fold_left digits_go] in *; [reflexivity|].
  unfold is_hex_digit in Hc; destruct (hex_digit_val c) as [d|] eqn:Hd; [|discriminate].
  assert (Hv : hex_step acc c = (acc * 16 + d)%N) by (unfold hex_step; rewrite Hd; reflexivity).
  rewrite Hv in Hb |- *.
  pose proof (fold_hex_ge l (acc * 16 + d)).
  destruct (N.ltb_spec (acc * 16 + d) (2 ^ 32)); [|lia].
  apply IH; exact Hb.
Qed.

(** Up to eight hexadecimal digits parse to their value. *)
Lemma from_str_radix16_hex (l : rstr) :
  l <> [] -> List.length l <= 8 ->
  Forall (fun c => is_hex_digit c = true) l ->
  from_str_radix16 l = Some (hex_value l).
Proof.
  intros Hne Hlen Hl.
  assert (Hb : (hex_value l < 2 ^ 32)%N).
  { pose proof (fold_hex_bound l 0 Hl) as H; unfold hex_value.
    assert (16 ^ N.of_nat (List.length l) <= 16 ^ 8)%N
      by (apply N.pow_le_mono_r; lia).
    change (2 ^ 32)%N with (16 ^ 8)%N; lia. }
  destruct l as [|c r]; [contradiction|].
  inversion Hl as [|? ? Hc _]; subst.
  unfold from_str_radix16; rewrite (proj1 (proj2 (hex_digit_props c Hc))).
  apply digits_go_hex; assumption.
Qed.

Lemma digits_go_bad (l : rstr) (acc : N) (x : ascii) :
  In x l -> hex_digit_val x = None -> digits_go acc l = None.
Proof.
  revert acc; induction l as [|c l IH]; intros acc Hin Hx; [destruct Hin|].
  destruct Hin as [<-|Hin]; simpl; [rewrite Hx; reflexivity|].
  destruct (hex_digit_val c); [|reflexivity].
  destruct (_ <? _)%N; [apply IH; assumption|reflexivity].
Qed.

(** A byte that is not a digit makes the parse fail, unless it is a
    leading ['+']. *)
Lemma from_str_radix16_bad_at (l : rstr) (i : nat) (x : ascii) :
  nth_error l i = Some x -> is_hex_digit x = false -> (i <> 0 \/ x <> "+"%char) ->
  from_str_radix16 l = None.
Proof.
  intros Hi Hx Hp.
  assert (Hv : hex_digit_val x = None)
    by (unfold is_hex_digit in Hx; destruct (hex_digit_val x); congruence).
  destruct l as [|c r]; [reflexivity|]; unfold from_str_radix16.
  destruct (Ascii.eqb_spec c "+"%char) as [->|Hc].
  - destruct i as [|j]; cbn in Hi.
    + injection Hi as <-; destruct Hp; contradiction.
    + destruct r; [reflexivity|].
      eapply digits_go_bad; [eapply nth_error_In; exact Hi | exact Hv].
  - eapply digits_go_bad; [eapply nth_error_In; exact Hi | exact Hv].
Qed.

Lemma strip_prefix_app (p s s' : rstr) : strip_prefix p s = Some s' -> s = p ++ s'.
Proof.
  revert s; induction p as [|c p IH]; intros s H; simpl in H.
  - injection H as ->; reflexivity.
  - destruct s as [|x s]; [discriminate|].
    destruct (Ascii.eqb_spec c x) as [->|]; [|discriminate].
    simpl; f_equal; apply IH; exact H.
Qed.

(** [trim_start_matches s "hid:"] removes every leading repetition of
    ["hid:"] and nothing else. *)
Lemma trim_hid (s : rstr) :
  exists k, s = List.concat (repeat (lit "hid:") k) ++ trim_start_matches s (lit "hid:") /\
            strip_prefix (lit "hid:") (trim_start_matches s (lit "hid:")) = None.
Proof.
  unfold trim_start_matches.
  assert (Hg : forall n s, List.length s < n ->
            exists k, s = List.concat (repeat (lit "hid:") k) ++ trim_go n (lit "hid:") s /\
                      strip_prefix (lit "hid:") (trim_go n (lit "hid:") s) = None).
  { induction n as [|n IH]; intros s0 Hl; [lia|]; cbn [trim_go].
    destruct (strip_prefix (lit "hid:") s0) as [s'|] eqn:Hs.
    - pose proof (strip_prefix_app _ _ _ Hs) as ->.
      destruct (IH s') as [k [Hk Hn]]; [simpl in Hl; lia|].
      exists (S k); split; [|exact Hn].
      cbn [repeat List.concat]; rewrite <- app_assoc, <- Hk; reflexivity.
    - exists 0; split; [reflexivity|exact Hs]. }
  apply Hg; lia.
Qed.

Lemma utf8_valid_hid_prefix (k : nat) (r : rstr) :
  utf8_valid (List.concat (repeat (lit "hid:") k) ++ r) = utf8_valid r.
Proof. induction k as [|k IH]; [reflexivity|]; simpl; exact IH. Qed.

Lemma utf8_valid_trim (s : rstr) :
  utf8_valid s = true -> utf8_valid (trim_start_matches s (lit "hid:")) = true.
Proof.
  destruct (trim_hid s) as [k [Hk _]]; intros Hv.
  rewrite Hk, utf8_valid_hid_prefix in Hv; exact Hv.
Qed.

Lemma continuation_not_lead (c : ascii) (r : rstr) :
  is_continuation c = true -> utf8_valid (c :: r) = false.
Proof.
  intros H.
  assert (Hb : ((byte_of c <? 128)%N = false) /\
               (((194 <=? byte_of c)%N && (byte_of c <=? 223)%N) = false) /\
               (((224 <=? byte_of c)%N && (byte_of c <=? 239)%N) = false) /\
               (((240 <=? byte_of c)%N && (byte_of c <=? 244)%N) = false)).
  { revert H; destruct c as [[][][][][][][][]]; vm_compute; intros H;
      first [discriminate H | repeat split]. }
  destruct Hb as (H1 & H2 & H3 & H4).
  cbn [utf8_valid]; rewrite H1, H2, H3, H4; reflexivity.
Qed.

Lemma utf8_valid_ascii_cons (a : ascii) (r : rstr) :
  (byte_of a <? 128)%N = true -> utf8_valid (a :: r) = utf8_valid r.
Proof. intros H; cbn [utf8_valid]; rewrite H; reflexivity. Qed.

Ltac utf8_contra Hv Ha :=
  cbn [app] in Hv; try rewrite (ascii_not_continuation _ Ha) in Hv;
  repeat rewrite ?andb_false_l, ?andb_false_r in Hv; discriminate Hv.

(** In well-formed UTF-8 a byte after an ASCII byte starts a character. *)
Lemma utf8_after_ascii (n : nat) :
  forall pre a c post, List.length pre <= n ->
  utf8_valid (pre ++ a :: c :: post) = true ->
  (byte_of a <? 128)%N = true -> is_continuation c = false.
Proof.
  assert (Hbase : forall a c post, utf8_valid (a :: c :: post) = true ->
            (byte_of a <? 128)%N = true -> is_continuation c = false).
  { intros a c post Hv Ha; rewrite utf8_valid_ascii_cons in Hv by exact Ha.
    destruct (is_continuation c) eqn:Hc; [|reflexivity].
    rewrite continuation_not_lead in Hv by exact Hc; discriminate. }
  induction n as [|n IH]; intros pre a c post Hlen Hv Ha.
  - destruct pre; [|simpl in Hlen; lia]; eapply Hbase; eassumption.
  - destruct pre as [|p0 pre']; [eapply Hbase; eassumption|].
    simpl in Hlen; cbn [app utf8_valid] in Hv.
    destruct (byte_of p0 <? 128)%N; [eapply (IH pre'); [lia | exact Hv | exact Ha]|].
    destruct ((194 <=? byte_of p0) && (byte_of p0 <=? 223))%N.
    { destruct pre' as [|d pre'']; [utf8_contra Hv Ha|].
      apply andb_prop in Hv as [_ Hv]; eapply (IH pre''); [simpl in Hlen; lia | exact Hv | exact Ha]. }
    destruct ((224 <=? byte_of p0) && (byte_of p0 <=? 239))%N.
    { destruct pre' as [|d [|e pre'']]; [utf8_contra Hv Ha | utf8_contra Hv Ha|].
      apply andb_prop in Hv as [_ Hv]; eapply (IH pre''); [simpl in Hlen; lia | exact Hv | exact Ha]. }
    destruct ((240 <=? byte_of p0) && (byte_of p0 <=? 244))%N; [|discriminate Hv].
    destruct pre' as [|d [|e [|f pre'']]];
      [destruct post; utf8_contra Hv Ha | utf8_contra Hv Ha | utf8_contra Hv Ha|].
    apply andb_prop in Hv as [_ Hv]; eapply (IH pre''); [simpl in Hlen; lia | exact Hv | exact Ha].
Qed.

Ltac explode4 l Hl b1 b2 b3 b4 :=
  destruct l as [|b1 [|b2 [|b3 [|b4 [|? ?]]]]];
  try (cbn in Hl; discriminate Hl).

Ltac explode8 l Hl b1 b2 b3 b4 b5 b6 b7 b8 :=
  destruct l as [|b1 [|b2 [|b3 [|b4 [|b5 [|b6 [|b7 [|b8 [|? ?]]]]]]]]];
  try (cbn in Hl; discriminate Hl).

Ltac split_forall :=
  repeat match goal with
         | H : Forall _ (_ :: _) |- _ => inversion H; subst; clear H
         | H : Forall _ [] |- _ => clear H
         end.

Ltac compute_fields :=
  unfold Modalias.parse_field, str_slice, is_char_boundary;
  cbn -[is_continuation from_str_radix16];
  repeat match goal with
         | H : is_continuation _ = false |- _ => rewrite H; clear H
         end;
  cbn -[from_str_radix16].

(** C2 (amended): the codec removes every leading ["hid:"]; it rejects a
    remainder that is not 28 bytes long with [InvalidData]; a 28-byte
    remainder whose byte ranges [1,5), [6,10), [11,19), [20,28) are
    hexadecimal digits (either case) parses to the values of those ranges;
    a 28-byte ASCII remainder with a byte in one of these ranges that is
    not a hex digit, other than a ['+'] at the start of its range, is
    rejected with [InvalidData]. *)
Theorem from_str_characterized (s : rstr) (Hu : utf8_valid s = true) :
  let r := trim_start_matches s (lit "hid:") in
  (exists k, s = List.concat (repeat (lit "hid:") k) ++ r /\
             strip_prefix (lit "hid:") r = None) /\
  (List.length r <> 28 -> Modalias.from_str s = RErr (Custom InvalidData)) /\
  (forall x0 fb x1 fg x2 fv x3 fp,
     r = x0 :: fb ++ x1 :: fg ++ x2 :: fv ++ x3 :: fp ->
     List.length fb = 4 -> List.length fg = 4 ->
     List.length fv = 8 -> List.length fp = 8 ->
     (Forall (fun c => is_hex_digit c = true) fb ->
      Forall (fun c => is_hex_digit c = true) fg ->
      Forall (fun c => is_hex_digit c = true) fv ->
      Forall (fun c => is_hex_digit c = true) fp ->
      Modalias.from_str s =
        ROk (Modalias.mk (hex_value fb) (hex_value fg) (hex_value fv) (hex_value fp))) /\
     (Forall (fun c => (byte_of c <? 128)%N = true) r ->
      (exists f i x, (f = fb \/ f = fg \/ f = fv \/ f = fp) /\
                     nth_error f i = Some x /\ is_hex_digit x = false /\
                     (i <> 0 \/ x <> "+"%char)) ->
      Modalias.from_str s = RErr (Custom InvalidData))).
Proof.
  intros r.
  assert (Hr : Modalias.from_str s =
    if negb (Nat.eqb (List.length r) 28) then RErr (Custom InvalidData)
    else
      bus <- Modalias.parse_field r 1 5 ;;
      group <- Modalias.parse_field r 6 10 ;;
      vid <- Modalias.parse_field r 11 19 ;;
      pid <- Modalias.parse_field r 20 28 ;;
      ROk (Modalias.mk bus group vid pid)) by reflexivity.
  pose proof (utf8_valid_trim s Hu) as Hv; fold r in Hv.
  split; [apply trim_hid|].
  split.
  { intros Hl; rewrite Hr; apply Nat.eqb_neq in Hl; rewrite Hl; reflexivity. }
  intros x0 fb x1 fg x2 fv x3 fp Heq Hfb Hfg Hfv Hfp.
  clearbody r; subst r; rewrite Hr; clear Hr.
  split.
  - intros Hb Hg Hvv Hp.
    assert (Eb : from_str_radix16 fb = Some (hex_value fb))
      by (apply from_str_radix16_hex; [intros ->; discriminate | lia | exact Hb]).
    assert (Eg : from_str_radix16 fg = Some (hex_value fg))
      by (apply from_str_radix16_hex; [intros ->; discriminate | lia | exact Hg]).
    assert (Ev : from_str_radix16 fv = Some (hex_value fv))
      by (apply from_str_radix16_hex; [intros ->; discriminate | lia | exact Hvv]).
    assert (Ep : from_str_radix16 fp = Some (hex_value fp))
      by (apply from_str_radix16_hex; [intros ->; discriminate | lia | exact Hp]).
    explode4 fb Hfb b1 b2 b3 b4. explode4 fg Hfg g1 g2 g3 g4.
    explode8 fv Hfv v1 v2 v3 v4 v5 v6 v7 v8.
    explode8 fp Hfp p1 p2 p3 p4 p5 p6 p7 p8.
    split_forall.
    repeat match goal with
           | H : is_hex_digit ?c = true |- _ =>
               destruct (hex_digit_props c H) as (? & ? & ?); clear H
           end.
    assert (Hx1 : is_continuation x1 = false)
      by (eapply (utf8_after_ascii 28 [x0; b1; b2; b3]); [simpl; lia | exact Hv | assumption]).
    assert (Hx2 : is_continuation x2 = false)
      by (eapply (utf8_after_ascii 28 [x0; b1; b2; b3; b4; x1; g1; g2; g3]);
          [simpl; lia | exact Hv | assumption]).
    assert (Hx3 : is_continuation x3 = false)
      by (eapply (utf8_after_ascii 28 [x0; b1; b2; b3; b4; x1; g1; g2; g3; g4; x2;
                                       v1; v2; v3; v4; v5; v6; v7]);
          [simpl; lia | exact Hv | assumption]).
    compute_fields.
    rewrite Eb, Eg, Ev, Ep; reflexivity.
  - intros Hall [f [i [x [Hf [Hi [Hxh Hxp]]]]]].
    assert (Hbad : from_str_radix16 fb = None \/ from_str_radix16 fg = None \/
                   from_str_radix16 fv = None \/ from_str_radix16 fp = None)
      by (destruct Hf as [-> | [-> | [-> | ->]]];
          [left | right; left | right; right; left | right; right; right];
          eapply from_str_radix16_bad_at; eauto).
    explode4 fb Hfb b1 b2 b3 b4. explode4 fg Hfg g1 g2 g3 g4.
    explode8 fv Hfv v1 v2 v3 v4 v5 v6 v7 v8.
    explode8 fp Hfp p1 p2 p3 p4 p5 p6 p7 p8.
    cbn [app] in Hall.
    split_forall.
    repeat match goal with
           | H : (byte_of ?c <? 128)%N = true |- _ =>
               pose proof (ascii_not_continuation c H); clear H
           end.
    compute_fields.
    destruct (from_str_radix16 [b1; b2; b3; b4]) eqn:E1;
      destruct (from_str_radix16 [g1; g2; g3; g4]) eqn:E2;
      destruct (from_str_radix16 [v1; v2; v3; v4; v5; v6; v7; v8]) eqn:E3;
      destruct (from_str_radix16 [p1; p2; p3; p4; p5; p6; p7; p8]) eqn:E4;
      cbn [obind]; try reflexivity.
    destruct Hbad as [Hn|[Hn|[Hn|Hn]]]; congruence.
Qed.

Lemma from_str_characterized_witness :
  Modalias.from_str (lit "hid:b0003g0001v000004d9p0000A09F") =
    ROk (Modalias.mk 3 1 1241 41119) /\
  Modalias.from_str (lit "b00+3g0001v000004D9p0000A09F") = RErr (Custom InvalidData).
Proof.
  split.
  - pose proof (from_str_characterized (lit "hid:b0003g0001v000004d9p0000A09F")
                  (eq_refl true)) as W.
    cbv zeta in W; destruct W as [_ [_ W]].
    destruct (W "b"%char (lit "0003") "g"%char (lit "0001") "v"%char (lit "000004d9")
                "p"%char (lit "0000A09F") (eq_refl _) (eq_refl _) (eq_refl _)
                (eq_refl _) (eq_refl _)) as [Hok _].
    rewrite Hok; [reflexivity | ..]; repeat constructor.
  - pose proof (from_str_characterized (lit "b00+3g0001v000004D9p0000A09F")
                  (eq_refl true)) as W.
    cbv zeta in W; destruct W as [_ [_ W]].
    destruct (W "b"%char (lit "00+3") "g"%char (lit "0001") "v"%char (lit "000004D9")
                "p"%char (lit "0000A09F") (eq_refl _) (eq_refl _) (eq_refl _)
                (eq_refl _) (eq_refl _)) as [_ Hbad].
    apply Hbad; [repeat constructor |].
    exists (lit "00+3"), 2, "+"%char; split; [left; reflexivity |].
    split; [reflexivity |]; split; [reflexivity | left; discriminate].
Defined.

(** C2 refuted as stated: a doubled prefix is removed twice, so a string
    whose remainder after removing the prefix once is 32 bytes long still
    parses; a field with a leading ['+'] parses; and a multi-byte
    character that straddles a field boundary panics rather than failing
    with [InvalidData]. *)
Lemma from_str_counterexample :
  (strip_prefix (lit "hid:") (lit "hid:hid:b0003g0001v000004D9p0000A09F") =
     Some (lit "hid:b0003g0001v000004D9p0000A09F") /\
   List.length (lit "hid:b0003g0001v000004D9p0000A09F") = 32 /\
   Modalias.from_str (lit "hid:hid:b0003g0001v000004D9p0000A09F") =
     ROk (Modalias.mk 3 1 1241 41119)) /\
  Modalias.from_str (lit "b+003g0001v000004D9p0000A09F") =
    ROk (Modalias.mk 3 1 1241 41119) /\
  (let s := lit "b000" ++ [Ascii.ascii_of_nat 195; Ascii.ascii_of_nat 169] ++
            lit "0001v000004D9p0000A09F" in
   utf8_valid s = true /\ List.length s = 28 /\ Modalias.from_str s = RPanic).
Proof. vm_compute; repeat split; reflexivity. Qed.

(** ** Candidate selection: the glob of [load_bpf_from_directory] *)

(** Bytes with a meaning in a glob (outside a class). *)
Definition glob_meta (c : ascii) : bool :=
  Ascii.eqb c "?"%char || Ascii.eqb c "*"%char || Ascii.eqb c "["%char ||
  Ascii.eqb c "{"%char || Ascii.eqb c "}"%char || Ascii.eqb c ","%char ||
  Ascii.eqb c "\"%char.

Definition glob_safe (c : ascii) : bool :=
  negb (glob_meta c) && (byte_of c <? 128)%N && negb (is_sep c).

(** What [join] puts in front of a relative name. *)
Definition dir_prefix (dir : rstr) : rstr :=
  match rev dir with
  | [] => []
  | l :: _ => if is_sep l then dir else dir ++ ["/"%char]
  end.

Definition lits (L : rstr) : list token := map (fun x => TAtom (ALit x)) L.

Definition alt_field (H : rstr) : token := TAlts [map ALit H; [ALit "*"%char]].

(** The tokens of [b{B,\*}g{G,\*}v{V,\*}p{P,\*}*.bpf.o]. *)
Definition pattern_tokens (m : Modalias.t) : list token :=
  lits (lit "b") ++ alt_field (fmt_hex_upper 4 (Modalias.bus m)) ::
  lits (lit "g") ++ alt_field (fmt_hex_upper 4 (Modalias.group m)) ::
  lits (lit "v") ++ alt_field (fmt_hex_upper 8 (Modalias.vid m)) ::
  lits (lit "p") ++ alt_field (fmt_hex_upper 8 (Modalias.pid m)) ::
  TAtom AStar :: lits (lit ".bpf.o").

(** The file names the glob accepts, segment by segment: letters compare
    case-insensitively, each field is the device's value or a literal
    [*], any run without ['/'] precedes the suffix. *)
Definition bpf_name_ok (m : Modalias.t) (name : rstr) : Prop :=
  exists sb f1 sg f2 sv f3 sp f4 rest sfx,
    name = sb ++ f1 ++ sg ++ f2 ++ sv ++ f3 ++ sp ++ f4 ++ rest ++ sfx /\
    map lower sb = lit "b" /\
    (map lower f1 = map lower (fmt_hex_upper 4 (Modalias.bus m)) \/ f1 = lit "*") /\
    map lower sg = lit "g" /\
    (map lower f2 = map lower (fmt_hex_upper 4 (Modalias.group m)) \/ f2 = lit "*") /\
    map lower sv = lit "v" /\
    (map lower f3 = map lower (fmt_hex_upper 8 (Modalias.vid m)) \/ f3 = lit "*") /\
    map lower sp = lit "p" /\
    (map lower f4 = map lower (fmt_hex_upper 8 (Modalias.pid m)) \/ f4 = lit "*") /\
    ~ In "/"%char rest /\
    map lower sfx = lit ".bpf.o".

(** Parsing. *)

Lemma step_plain (c : ctx) (x : ascii) :
  glob_meta x = false -> step (PNorm c) x = Some (PNorm (push c (ALit x))).
Proof.
  intros H; destruct x as [[][][][][][][][]]; try (vm_compute in H; discriminate H);
    reflexivity.
Qed.

Lemma parse_go_app (st : pstate) (a b : rstr) :
  parse_go st (a ++ b) =
  match parse_go st a with Some st' => parse_go st' b | None => None end.
Proof.
  revert st; induction a as [|x a IH]; intros st; [reflexivity|].
  cbn [app parse_go]; destruct (step st x); [apply IH | reflexivity].
Qed.

Lemma parse_plain (c : ctx) (L : rstr) :
  forallb (fun x => negb (glob_meta x)) L = true ->
  parse_go (PNorm c) L = Some (PNorm (fold_left (fun c x => push c (ALit x)) L c)).
Proof.
  revert c; induction L as [|x L IH]; intros c H; [reflexivity|].
  cbn [forallb] in H; apply andb_prop in H; destruct H as [Hx HL].
  cbn [parse_go fold_left]; rewrite step_plain by (destruct (glob_meta x); easy).
  apply IH, HL.
Qed.

Lemma fold_push_top (top : list token) (L : rstr) :
  fold_left (fun c x => push c (ALit x)) L (CTop top) = CTop (rev (lits L) ++ top).
Proof.
  revert top; induction L as [|x L IH]; intros top; [reflexivity|].
  cbn [fold_left push]; rewrite IH; cbn [lits map rev]; rewrite <- app_assoc; reflexivity.
Qed.

Lemma fold_push_alt (top : list token) (d : list (list atom)) (cur : list atom) (L : rstr) :
  fold_left (fun c x => push c (ALit x)) L (CAlt top d cur) =
  CAlt top d (rev (map ALit L) ++ cur).
Proof.
  revert cur; induction L as [|x L IH]; intros cur; [reflexivity|].
  cbn [fold_left push]; rewrite IH; cbn [map rev]; rewrite <- app_assoc; reflexivity.
Qed.

Lemma parse_field_seg (top : list token) (H tail : rstr) :
  forallb (fun x => negb (glob_meta x)) H = true ->
  parse_go (PNorm (CAlt top [] []))
    (H ++ ","%char :: "\"%char :: "*"%char :: "}"%char :: tail) =
  parse_go (PNorm (CTop (alt_field H :: top))) tail.
Proof.
  intros HH; rewrite parse_go_app, parse_plain, fold_push_alt by exact HH.
  rewrite app_nil_r; cbn.
  rewrite rev_involutive; reflexivity.
Qed.

Lemma parse_pattern (top : list token) (m : Modalias.t) :
  forallb (fun x => negb (glob_meta x)) (fmt_hex_upper 4 (Modalias.bus m)) = true ->
  forallb (fun x => negb (glob_meta x)) (fmt_hex_upper 4 (Modalias.group m)) = true ->
  forallb (fun x => negb (glob_meta x)) (fmt_hex_upper 8 (Modalias.vid m)) = true ->
  forallb (fun x => negb (glob_meta x)) (fmt_hex_upper 8 (Modalias.pid m)) = true ->
  parse_go (PNorm (CTop top)) (HidUdev.glob_file_pattern m) =
  Some (PNorm (CTop (rev (pattern_tokens m) ++ top))).
Proof.
  intros H1 H2 H3 H4; unfold HidUdev.glob_file_pattern, pattern_tokens.
  generalize dependent (fmt_hex_upper 4 (Modalias.bus m)).
  generalize dependent (fmt_hex_upper 4 (Modalias.group m)).
  generalize dependent (fmt_hex_upper 8 (Modalias.vid m)).
  generalize dependent (fmt_hex_upper 8 (Modalias.pid m)).
  intros p4 H4 p3 H3 p2 H2 p1 H1.
  simpl; rewrite parse_field_seg by exact H1.
  simpl; rewrite parse_field_seg by exact H2.
  simpl; rewrite parse_field_seg by exact H3.
  simpl; rewrite parse_field_seg by exact H4.
  simpl; reflexivity.
Qed.

(** Formatted fields are plain ASCII hex digits. *)

Lemma hex_char_safe (d : N) : glob_safe (hex_char d) = true.
Proof.
  unfold hex_char.
  assert (Hin : In (nth (N.to_nat d) (lit "0123456789ABCDEF") "0"%char)
                   ("0"%char :: lit "0123456789ABCDEF")).
  { destruct (Nat.lt_ge_cases (N.to_nat d) (List.length (lit "0123456789ABCDEF"))) as [Hl|Hl].
    - right; apply nth_In; exact Hl.
    - left; rewrite nth_overflow by exact Hl; reflexivity. }
  revert Hin; generalize (nth (N.to_nat d) (lit "0123456789ABCDEF") "0"%char).
  intros c Hin; simpl in Hin.
  repeat (destruct Hin as [<-|Hin]; [reflexivity|]); destruct Hin.
Qed.

Lemma hex_digits_go_safe (fuel : nat) (v : N) (acc : rstr) :
  forallb glob_safe acc = true -> forallb glob_safe (hex_digits_go fuel v acc) = true.
Proof.
  revert v acc; induction fuel as [|f IH]; intros v acc H; [exact H|].
  cbn [hex_digits_go].
  destruct (v / 16 =? 0)%N; [|apply IH]; cbn [forallb]; rewrite hex_char_safe; exact H.
Qed.

Lemma hex_digits_go_nonempty (fuel : nat) (v : N) (acc : rstr) :
  acc <> [] -> hex_digits_go fuel v acc <> [].
Proof.
  revert v acc; induction fuel as [|f IH]; intros v acc H; [exact H|].
  cbn [hex_digits_go]; destruct (v / 16 =? 0)%N; [discriminate|apply IH; discriminate].
Qed.

Lemma hex_digits_go_S (f : nat) (v : N) (acc : rstr) : hex_digits_go (S f) v acc <> [].
Proof.
  simpl; destruct (v / 16 =? 0)%N; [discriminate|].
  apply hex_digits_go_nonempty; discriminate.
Qed.

Lemma fmt_hex_upper_safe (w : nat) (v : N) :
  forallb glob_safe (fmt_hex_upper w v) = true /\ fmt_hex_upper w v <> [].
Proof.
  unfold fmt_hex_upper; split.
  - rewrite forallb_app, hex_digits_go_safe by reflexivity.
    rewrite andb_true_r; induction (w - _) as [|k IH]; [reflexivity|exact IH].
  - intros H; apply app_eq_nil in H; destruct H as [_ H].
    revert H; change 32 with (S 31); apply hex_digits_go_S.
Qed.

Lemma safe_plain (L : rstr) :
  forallb glob_safe L = true -> forallb (fun x => negb (glob_meta x)) L = true.
Proof.
  induction L as [|x L IH]; [reflexivity|]; cbn [forallb]; intros H.
  apply andb_prop in H; destruct H as [Hx HL]; unfold glob_safe in Hx.
  destruct (glob_meta x); [discriminate|]; exact (IH HL).
Qed.

Lemma safe_ascii (L : rstr) :
  forallb glob_safe L = true -> Forall (fun c => (byte_of c <? 128)%N = true) L.
Proof.
  induction L as [|x L IH]; intros H; constructor; cbn [forallb] in H;
    unfold glob_safe in H; apply andb_prop in H; destruct H as [Hx HL].
  - apply andb_prop in Hx; destruct Hx as [Hx _]; apply andb_prop in Hx; apply Hx.
  - apply IH, HL.
Qed.

Lemma pattern_utf8 (m : Modalias.t) :
  utf8_valid (HidUdev.glob_file_pattern m) = true.
Proof.
  pose proof (fun w v => safe_ascii _ (proj1 (fmt_hex_upper_safe w v))) as Hf.
  apply utf8_valid_ascii; unfold HidUdev.glob_file_pattern.
  generalize (Hf 4 (Modalias.bus m)) (Hf 4 (Modalias.group m))
             (Hf 8 (Modalias.vid m)) (Hf 8 (Modalias.pid m)).
  generalize (fmt_hex_upper 4 (Modalias.bus m)) (fmt_hex_upper 4 (Modalias.group m))
             (fmt_hex_upper 8 (Modalias.vid m)) (fmt_hex_upper 8 (Modalias.pid m)).
  intros p1 p2 p3 p4 H1 H2 H3 H4.
  repeat (apply Forall_app; split); try assumption;
    cbv [lit list_ascii_of_string]; repeat constructor.
Qed.

(** Joining a relative name. *)

Lemma join_prefix (dir name : rstr) (c : ascii) :
  is_sep c = false -> join dir (c :: name) = dir_prefix dir ++ c :: name.
Proof.
  intros H; unfold join, dir_prefix; rewrite H.
  destruct (rev dir) as [|l r]; [reflexivity|].
  destruct (is_sep l); [reflexivity|]; rewrite <- app_assoc; reflexivity.
Qed.

Lemma dir_prefix_plain (dir : rstr) :
  forallb (fun x => negb (glob_meta x)) dir = true ->
  forallb (fun x => negb (glob_meta x)) (dir_prefix dir) = true.
Proof.
  unfold dir_prefix; intros H; destruct (rev dir); [reflexivity|].
  destruct (is_sep a); [exact H|]; rewrite forallb_app, H; reflexivity.
Qed.

Lemma utf8_valid_app (n : nat) :
  forall a b, List.length a <= n -> utf8_valid a = true -> utf8_valid b = true ->
  utf8_valid (a ++ b) = true.
Proof.
  induction n as [|n IH]; intros a b Hl Ha Hb.
  { destruct a; [exact Hb | cbn in Hl; lia]. }
  destruct a as [|c r]; [exact Hb|].
  cbn [List.length] in Hl; cbn [app utf8_valid] in *.
  destruct (byte_of c <? 128)%N; [apply IH; auto; lia|].
  destruct ((194 <=? byte_of c)%N && (byte_of c <=? 223)%N).
  { destruct r as [|d r]; [discriminate Ha|]; cbn [app List.length] in *.
    apply andb_prop in Ha; destruct Ha as [Hd Hr]; rewrite Hd; apply IH; auto; lia. }
  destruct ((224 <=? byte_of c)%N && (byte_of c <=? 239)%N).
  { destruct r as [|d [|e r]]; try discriminate Ha; cbn [app List.length] in *.
    apply andb_prop in Ha; destruct Ha as [Hd Hr]; rewrite Hd; apply IH; auto; lia. }
  destruct ((240 <=? byte_of c)%N && (byte_of c <=? 244)%N); [|discriminate Ha].
  destruct r as [|d [|e [|f r]]]; try discriminate Ha; cbn [app List.length] in *.
  apply andb_prop in Ha; destruct Ha as [Hd Hr]; rewrite Hd; apply IH; auto; lia.
Qed.

Lemma utf8_valid_dir_prefix (dir : rstr) :
  utf8_valid dir = true -> utf8_valid (dir_prefix dir) = true.
Proof.
  unfold dir_prefix; intros H; destruct (rev dir); [reflexivity|].
  destruct (is_sep a); [exact H|]; apply (utf8_valid_app (List.length dir)); auto.
Qed.

Lemma glob_build_path (dir : rstr) (m : Modalias.t) :
  forallb (fun x => negb (glob_meta x)) dir = true ->
  glob_build (join dir (HidUdev.glob_file_pattern m)) =
  Some (lits (dir_prefix dir) ++ pattern_tokens m).
Proof.
  intros Hd.
  change (HidUdev.glob_file_pattern m) with ("b"%char :: tl (HidUdev.glob_file_pattern m)).
  rewrite join_prefix by reflexivity.
  change ("b"%char :: tl (HidUdev.glob_file_pattern m)) with (HidUdev.glob_file_pattern m).
  unfold glob_build.
  rewrite parse_go_app, parse_plain by (apply dir_prefix_plain, Hd).
  rewrite fold_push_top, parse_pattern
    by (apply safe_plain, fmt_hex_upper_safe).
  rewrite app_nil_r, rev_app_distr, !rev_involutive; reflexivity.
Qed.

(** Matching. *)

Lemma glob_is_match_in (g : list token) (p : rstr) :
  glob_is_match g p = true <-> In [] (match_tokens g p).
Proof.
  unfold glob_is_match; rewrite existsb_exists; split.
  - intros [[|x r] [Hin Hx]]; [exact Hin | discriminate Hx].
  - intros H; exists []; split; [exact H | reflexivity].
Qed.

Lemma in_match_tokens_cons (t : token) (l : list token) (s r : rstr) :
  In r (match_tokens (t :: l) s) <->
  exists s', In s' (match_token t s) /\ In r (match_tokens l s').
Proof. apply in_flat_map. Qed.

Lemma in_match_tokens_app (l1 l2 : list token) (s r : rstr) :
  In r (match_tokens (l1 ++ l2) s) <->
  exists s', In s' (match_tokens l1 s) /\ In r (match_tokens l2 s').
Proof.
  revert s; induction l1 as [|t l1 IH]; intros s.
  - cbn [app match_tokens]; split.
    + intros H; exists s; split; [left; reflexivity | exact H].
    + intros [s' [[<-|[]] H]]; exact H.
  - cbn [app]; rewrite in_match_tokens_cons; split.
    + intros [s1 [H1 H2]]; apply IH in H2; destruct H2 as [s' [H2 H3]].
      exists s'; split; [apply in_match_tokens_cons; exists s1; auto | exact H3].
    + intros [s' [H1 H2]]; apply in_match_tokens_cons in H1.
      destruct H1 as [s1 [H1 H3]]; exists s1; split; [exact H1|].
      apply IH; exists s'; auto.
Qed.

Lemma match_lits_atoms (L : rstr) (s : rstr) :
  match_tokens (lits L) s = match_atoms (map ALit L) s.
Proof.
  revert s; induction L as [|x L IH]; intros s; [reflexivity|].
  cbn [lits map match_tokens match_atoms match_token].
  apply flat_map_ext; exact IH.
Qed.

Lemma in_match_atoms_lits (L : rstr) (s r : rstr) :
  In r (match_atoms (map ALit L) s) <-> exists u, s = u ++ r /\ map lower u = map lower L.
Proof.
  revert s; induction L as [|x L IH]; intros s; cbn [map match_atoms].
  - split.
    + intros [<-|[]]; exists []; split; reflexivity.
    + intros [u [-> Hu]]; apply map_eq_nil in Hu; subst; left; reflexivity.
  - rewrite in_flat_map; split.
    + intros [s' [Hs' Hr]].
      destruct s as [|y s]; cbn [match_atom] in Hs'; [destruct Hs'|].
      unfold ci_eq in Hs'; destruct (Ascii.eqb (lower x) (lower y)) eqn:E; [|destruct Hs'].
      destruct Hs' as [<-|[]]; apply IH in Hr; destruct Hr as [u [-> Hu]].
      exists (y :: u); split; [reflexivity|].
      cbn [map]; rewrite Hu; apply Ascii.eqb_eq in E; rewrite E; reflexivity.
    + intros [u [Hs Hu]]; destruct u as [|z u]; [discriminate Hu|].
      cbn [map] in Hu; injection Hu as Hz Hu; subst s.
      exists (u ++ r); split.
      * cbn [app match_atom]; unfold ci_eq; rewrite Hz, Ascii.eqb_refl; left; reflexivity.
      * apply IH; exists u; auto.
Qed.

Lemma in_match_lits (L : rstr) (s r : rstr) :
  In r (match_tokens (lits L) s) <-> exists u, s = u ++ r /\ map lower u = map lower L.
Proof. rewrite match_lits_atoms; apply in_match_atoms_lits. Qed.

Lemma is_sep_false (c : ascii) : is_sep c = false <-> c <> "/"%char.
Proof.
  unfold is_sep; split; intros H.
  - intros ->; discriminate H.
  - apply Ascii.eqb_neq, H.
Qed.

Lemma in_star (s r : rstr) :
  In r (star_rems s) <-> exists u, s = u ++ r /\ ~ In "/"%char u.
Proof.
  induction s as [|c s IH]; cbn [star_rems].
  - split.
    + intros [<-|[]]; exists []; split; [reflexivity | intros []].
    + intros [u [Hs _]]; symmetry in Hs; apply app_eq_nil in Hs.
      destruct Hs as [_ ->]; left; reflexivity.
  - split.
    + intros [<-|H]; [exists []; split; [reflexivity | intros []]|].
      destruct (is_sep c) eqn:E; [destruct H|].
      apply IH in H; destruct H as [u [-> Hu]].
      exists (c :: u); split; [reflexivity|].
      intros [Hc|Hc]; [apply is_sep_false in E; congruence | exact (Hu Hc)].
    + intros [[|z u] [Hs Hu]]; [left; exact Hs|].
      injection Hs as <- Hs; right.
      assert (E : is_sep c = false)
        by (apply is_sep_false; intros ->; apply Hu; left; reflexivity).
      rewrite E; apply IH; exists u; split; [exact Hs|].
      intros Hc; apply Hu; right; exact Hc.
Qed.

Lemma lower_star (x : ascii) : lower x = "*"%char -> x = "*"%char.
Proof.
  destruct x as [[][][][][][][][]]; vm_compute; intros H;
    first [reflexivity | discriminate H].
Qed.

Lemma in_alt (H : rstr) (s r : rstr) :
  H <> [] ->
  In r (match_token (alt_field H) s) <->
  exists u, s = u ++ r /\ (map lower u = map lower H \/ u = lit "*").
Proof.
  intros HH; destruct H as [|h H]; [congruence|].
  cbn [match_token alt_field filter map flat_map].
  rewrite app_nil_r, in_app_iff.
  change [ALit "*"%char] with (map ALit (lit "*")).
  change (ALit h :: map ALit H) with (map ALit (h :: H)).
  change (lower h :: map lower H) with (map lower (h :: H)).
  rewrite !in_match_atoms_lits; split.
  - intros [[u [Hs Hu]]|[u [Hs Hu]]]; exists u; split; auto.
    right; destruct u as [|x [|y u]]; try discriminate Hu.
    injection Hu as Hx; apply lower_star in Hx; subst; reflexivity.
  - intros [u [Hs [Hu|Hu]]]; [left | right]; exists u; split; auto.
    rewrite Hu; reflexivity.
Qed.

Lemma app_same_length {A : Type} (u p s n : list A) :
  List.length u = List.length p -> u ++ s = p ++ n -> u = p /\ s = n.
Proof.
  revert p; induction u as [|a u IH]; intros [|b p] Hl He; try discriminate Hl.
  - split; [reflexivity | exact He].
  - injection He as -> He; injection Hl as Hl.
    destruct (IH p Hl He) as [-> ->]; split; reflexivity.
Qed.

Ltac peel_lits H :=
  apply in_match_tokens_app in H;
  let s := fresh "s" in let Hl := fresh "Hl" in
  destruct H as [s [Hl H]]; apply in_match_lits in Hl;
  let u := fresh "u" in let Hu := fresh "Hu" in
  let Hs := fresh "Hs" in
  destruct Hl as [u [Hs Hu]]; subst.

Ltac peel_alt H :=
  apply in_match_tokens_cons in H;
  let s := fresh "s" in let Hl := fresh "Hl" in
  destruct H as [s [Hl H]]; apply in_alt in Hl; [|apply fmt_hex_upper_safe];
  let u := fresh "f" in let Hu := fresh "Hf" in
  let Hs := fresh "Hs" in
  destruct Hl as [u [Hs Hu]]; subst.

Ltac build_lits :=
  apply in_match_tokens_app; eexists; split;
  [apply in_match_lits; eexists; split; [reflexivity | eassumption] |].

Ltac build_alt :=
  apply in_match_tokens_cons; eexists; split;
  [apply in_alt; [apply fmt_hex_upper_safe | eexists; split; [reflexivity | eassumption]] |].

Lemma pattern_match_name (m : Modalias.t) (name : rstr) :
  In [] (match_tokens (pattern_tokens m) name) <-> bpf_name_ok m name.
Proof.
  unfold pattern_tokens, bpf_name_ok; split.
  - intros H.
    peel_lits H; peel_alt H; peel_lits H; peel_alt H;
      peel_lits H; peel_alt H; peel_lits H; peel_alt H.
    apply in_match_tokens_cons in H; destruct H as [s [Hst H]].
    apply in_star in Hst; destruct Hst as [rest [-> Hrest]].
    apply in_match_lits in H; destruct H as [sfx [-> Hsfx]].
    rewrite app_nil_r.
    do 10 eexists; split; [reflexivity|].
    repeat split; eassumption.
  - intros (sb & f1 & sg & f2 & sv & f3 & sp & f4 & rest & sfx & -> &
            Hb & H1 & Hg & H2 & Hv & H3 & Hp & H4 & Hr & Hs).
    build_lits; build_alt; build_lits; build_alt;
      build_lits; build_alt; build_lits; build_alt.
    apply in_match_tokens_cons; eexists; split.
    + apply in_star; eexists; split; [reflexivity | exact Hr].
    + apply in_match_lits; exists sfx; split; [rewrite app_nil_r; reflexivity | exact Hs].
Qed.

Lemma glob_pattern_match (p : rstr) (m : Modalias.t) (name : rstr) :
  glob_is_match (lits p ++ pattern_tokens m) (p ++ name) = true <-> bpf_name_ok m name.
Proof.
  rewrite glob_is_match_in, in_match_tokens_app, <- pattern_match_name; split.
  - intros [s' [H1 H2]]; apply in_match_lits in H1; destruct H1 as [u [Hs Hu]].
    apply (f_equal (@List.length ascii)) in Hu; rewrite !length_map in Hu.
    destruct (app_same_length u p s' name Hu (eq_sym Hs)) as [_ ->]; exact H2.
  - intros H; exists name; split; [|exact H].
    apply in_match_lits; exists p; split; reflexivity.
Qed.

Lemma join_rel (dir name : rstr) :
  name <> [] -> ~ In "/"%char name -> join dir name = dir_prefix dir ++ name.
Proof.
  destruct name as [|c n]; intros H1 H2; [congruence|].
  apply join_prefix, is_sep_false; intros ->; apply H2; left; reflexivity.
Qed.

(** C1 (amended): for a directory whose path has no glob metacharacter
    ([? * [ { } , \]) and is valid UTF-8, whose entries are non-empty
    UTF-8 names without ['/'], the selection succeeds and keeps exactly
    the joined paths of the entries that are files and whose names read,
    letters compared case-insensitively, [b] field [g] field [v] field
    [p] field, any run without ['/'], [.bpf.o]; each field being the
    device's fixed-width uppercase hex value or a literal [*]. *)
Theorem select_matches_exact (F : fs) (bpf_dir : rstr) (m : Modalias.t)
    (elems : list (option rstr))
    (Hread : fs_read_dir F bpf_dir = Some elems)
    (Hdir : forallb (fun c => negb (glob_meta c)) bpf_dir = true)
    (Hdu : utf8_valid bpf_dir = true)
    (Hnames : forall n, In n (HidUdev.entry_names elems) ->
              n <> [] /\ ~ In "/"%char n /\ utf8_valid n = true) :
  exists sel, HidUdev.select_matches F bpf_dir m = ROk sel /\
    forall path, In path sel <->
      exists name, In name (HidUdev.entry_names elems) /\
                   path = join bpf_dir name /\
                   path_is_file F path = true /\
                   bpf_name_ok m name.
Proof.
  assert (Hj : join bpf_dir (HidUdev.glob_file_pattern m) =
               dir_prefix bpf_dir ++ HidUdev.glob_file_pattern m).
  { change (HidUdev.glob_file_pattern m) with ("b"%char :: tl (HidUdev.glob_file_pattern m)).
    apply join_prefix; reflexivity. }
  assert (Hgu : utf8_valid (join bpf_dir (HidUdev.glob_file_pattern m)) = true).
  { rewrite Hj; apply (utf8_valid_app (List.length (dir_prefix bpf_dir)));
      [lia | apply utf8_valid_dir_prefix, Hdu | apply pattern_utf8]. }
  assert (Hpu : forallb utf8_valid (map (join bpf_dir) (HidUdev.entry_names elems)) = true).
  { apply forallb_forall; intros p Hp; apply in_map_iff in Hp.
    destruct Hp as [name [<- Hin]]; destruct (Hnames name Hin) as (H1 & H2 & H3).
    rewrite join_rel by assumption.
    apply (utf8_valid_app (List.length (dir_prefix bpf_dir)));
      [lia | apply utf8_valid_dir_prefix, Hdu | exact H3]. }
  unfold HidUdev.select_matches.
  rewrite Hgu, glob_build_path, Hread, Hpu by exact Hdir; cbn [negb].
  eexists; split; [reflexivity|]; intros path.
  rewrite filter_In, in_map_iff; split.
  - intros [[name [<- Hin]] Hf]; apply andb_prop in Hf; destruct Hf as [Hg Hf].
    destruct (Hnames name Hin) as (H1 & H2 & _).
    rewrite join_rel in Hg by assumption; apply glob_pattern_match in Hg.
    exists name; auto.
  - intros [name (Hin & -> & Hf & Hok)]; split; [exists name; auto|].
    destruct (Hnames name Hin) as (H1 & H2 & _).
    rewrite Hf, andb_true_r, join_rel by assumption.
    apply glob_pattern_match, Hok.
Qed.

Definition bpf_dir0 : rstr := lit "/lib/firmware/hid/bpf".

Definition kbd_modalias : Modalias.t := Modalias.mk 3 1 1118 1957.

Definition bpf_entries0 : list (option rstr) :=
  [Some (lit "b0003g0001v0000045Ep000007A5-kbd.bpf.o");
   Some (lit "b0003g*v*p*.bpf.o");
   None;
   Some (lit "b0003g0002v*p*.bpf.o");
   Some (lit "b*g*v*p*.bpf.o");
   Some (lit "b0003g0001v0000045ep000007a5.bpf.o.txt");
   Some (lit "README")].

(** A directory [b*g*v*p*.bpf.o] sits next to the object files. *)
Definition F3 (dir : rstr) (entries : list (option rstr)) : fs := {|
  path_exists := fun _ => true;
  path_is_file := fun p => negb (rstr_eqb p (join dir (lit "b*g*v*p*.bpf.o")));
  fs_read_dir := fun d => if rstr_eqb d dir then Some entries else None;
  fs_read_link := fun _ => None
|}.

Lemma select_matches_exact_witness :
  HidUdev.select_matches (F3 bpf_dir0 bpf_entries0) bpf_dir0 kbd_modalias =
    ROk [join bpf_dir0 (lit "b0003g0001v0000045Ep000007A5-kbd.bpf.o");
         join bpf_dir0 (lit "b0003g*v*p*.bpf.o")] /\
  exists sel, HidUdev.select_matches (F3 bpf_dir0 bpf_entries0) bpf_dir0 kbd_modalias = ROk sel /\
    forall path, In path sel <->
      exists name, In name (HidUdev.entry_names bpf_entries0) /\
                   path = join bpf_dir0 name /\
                   path_is_file (F3 bpf_dir0 bpf_entries0) path = true /\
                   bpf_name_ok kbd_modalias name.
Proof.
  split; [vm_compute; reflexivity|].
  apply select_matches_exact; [reflexivity | reflexivity | reflexivity |].
  intros n Hn; vm_compute in Hn.
  repeat (destruct Hn as [<-|Hn]; [split; [discriminate | split; [|reflexivity]] |]);
    try (intros H; vm_compute in H; repeat (destruct H as [H|H]; [discriminate H|]); exact H).
  destruct Hn.
Defined.

(** C1 as stated fails: the whole name is compared case-insensitively, so
    [B*G*V*P*.BPF.O], which does not end in [.bpf.o], is selected; a
    directory path with glob metacharacters is read as glob syntax, so in
    [/d/{a}] the exact device file is not selected, and in [/d/[x] the
    glob does not build and the flow panics. *)
Lemma select_matches_counterexample :
  (HidUdev.select_matches (F3 (lit "/d") [Some (lit "B*G*V*P*.BPF.O")]) (lit "/d") kbd_modalias =
     ROk [lit "/d/B*G*V*P*.BPF.O"] /\
   skipn 8 (lit "B*G*V*P*.BPF.O") <> lit ".bpf.o") /\
  HidUdev.select_matches
    (F3 (lit "/d/{a}") [Some (lit "b0003g0001v0000045Ep000007A5.bpf.o")])
    (lit "/d/{a}") kbd_modalias = ROk [] /\
  HidUdev.select_matches
    (F3 (lit "/d/[x") [Some (lit "b0003g0001v0000045Ep000007A5.bpf.o")])
    (lit "/d/[x") kbd_modalias = RPanic /\
  HidUdev.select_matches
    (F3 (lit "/d" ++ [ascii_of_N 255]) [Some (lit "b0003g0001v0000045Ep000007A5.bpf.o")])
    (lit "/d" ++ [ascii_of_N 255]) kbd_modalias = RPanic /\
  HidUdev.select_matches
    (F3 (lit "/e") [Some (lit "b0003g0001v0000045Ep000007A5.bpf.o")])
    (lit "/d") kbd_modalias = RPanic.
Proof.
  split; [split; [vm_compute; reflexivity | vm_compute; discriminate]|].
  repeat split; vm_compute; reflexivity.
Qed.

(** * Further properties of the code *)

(** ** The identity codec *)

Lemma strip_prefix_self (p s : rstr) : strip_prefix p (p ++ s) = Some s.
Proof. induction p as [|c p IH]; [reflexivity|]; cbn; rewrite Ascii.eqb_refl; exact IH. Qed.

Lemma strip_prefix_length (p s s' : rstr) :
  strip_prefix p s = Some s' -> List.length s = List.length p + List.length s'.
Proof.
  intros H; apply strip_prefix_app in H; subst; apply length_app.
Qed.

Lemma trim_go_fuel (p : rstr) (Hp : p <> []) (f1 : nat) :
  forall f2 s, List.length s < f1 -> List.length s < f2 -> trim_go f1 p s = trim_go f2 p s.
Proof.
  induction f1 as [|f1 IH]; intros f2 s H1 H2; [lia|].
  destruct f2 as [|f2]; [lia|]; cbn [trim_go].
  destruct (strip_prefix p s) as [s'|] eqn:E; [|reflexivity].
  apply strip_prefix_length in E; destruct p; [congruence|]; cbn in E.
  apply IH; lia.
Qed.

Lemma trim_start_matches_none (p s : rstr) :
  strip_prefix p s = None -> trim_start_matches s p = s.
Proof. intros H; unfold trim_start_matches; cbn [trim_go]; rewrite H; reflexivity. Qed.

Lemma trim_hid_cons (s : rstr) :
  trim_start_matches (lit "hid:" ++ s) (lit "hid:") = trim_start_matches s (lit "hid:").
Proof.
  unfold trim_start_matches at 1; cbn [trim_go]; rewrite strip_prefix_self.
  apply trim_go_fuel; [discriminate | rewrite length_app; cbn; lia | lia].
Qed.

(** Extra: a leading ["hid:"] never changes the result of the codec. *)
Theorem from_str_hid_prefix (s : rstr) :
  Modalias.from_str (lit "hid:" ++ s) = Modalias.from_str s.
Proof. unfold Modalias.from_str; rewrite trim_hid_cons; reflexivity. Qed.

Lemma digits_go_bound (l : rstr) :
  forall acc v, digits_go acc l = Some v -> (v < (acc + 1) * 16 ^ N.of_nat (List.length l))%N.
Proof.
  induction l as [|c l IH]; intros acc v H; cbn [digits_go] in H.
  - injection H as <-; cbn; lia.
  - destruct (hex_digit_val c) as [d|] eqn:Ed; [|discriminate H].
    destruct (acc * 16 + d <? 2 ^ 32)%N; [|discriminate H].
    apply IH in H; apply hex_digit_val_lt in Ed.
    rewrite length_cons, Nat2N.inj_succ, N.pow_succ_r'.
    eapply N.lt_le_trans; [exact H|]; nia.
Qed.

Lemma from_str_radix16_bound (l : rstr) (v : N) :
  from_str_radix16 l = Some v -> (v < 16 ^ N.of_nat (List.length l))%N.
Proof.
  destruct l as [|c l]; intros H; [discriminate H|]; cbn [from_str_radix16] in H.
  destruct (Ascii.eqb c "+"%char).
  - destruct l as [|c' l']; [discriminate H|].
    apply digits_go_bound in H; rewrite N.add_0_l, N.mul_1_l in H.
    eapply N.lt_le_trans; [exact H|]; apply N.pow_le_mono_r; [lia|]; cbn [List.length]; lia.
  - apply digits_go_bound in H; rewrite N.add_0_l, N.mul_1_l in H; exact H.
Qed.

Lemma parse_field_bound (r : rstr) (a b : nat) (v : N) :
  Modalias.parse_field r a b = ROk v -> (v < 16 ^ N.of_nat (b - a))%N.
Proof.
  unfold Modalias.parse_field, str_slice.
  destruct (_ && _ && _ && _); [|discriminate].
  destruct (from_str_radix16 _) as [w|] eqn:E; [|discriminate].
  intros H; injection H as <-; apply from_str_radix16_bound in E.
  eapply N.lt_le_trans; [exact E|]; apply N.pow_le_mono_r; [lia|].
  rewrite length_firstn; lia.
Qed.

(** Extra: a parsed identity has each field within its fixed width:
    bus and group below [0x10000], vendor and product below [2^32]. *)
Theorem from_str_field_bounds (s : rstr) (m : Modalias.t) :
  Modalias.from_str s = ROk m ->
  (Modalias.bus m < 2 ^ 16)%N /\ (Modalias.group m < 2 ^ 16)%N /\
  (Modalias.vid m < 2 ^ 32)%N /\ (Modalias.pid m < 2 ^ 32)%N.
Proof.
  unfold Modalias.from_str; cbv zeta.
  destruct (negb _); [discriminate|].
  destruct (Modalias.parse_field _ 1 5) as [b| |] eqn:Eb; try discriminate; cbn [obind].
  destruct (Modalias.parse_field _ 6 10) as [g| |] eqn:Eg; try discriminate; cbn [obind].
  destruct (Modalias.parse_field _ 11 19) as [v| |] eqn:Ev; try discriminate; cbn [obind].
  destruct (Modalias.parse_field _ 20 28) as [p| |] eqn:Ep; try discriminate; cbn [obind].
  intros H; injection H as <-; cbn.
  apply parse_field_bound in Eb, Eg, Ev, Ep; cbn in Eb, Eg, Ev, Ep.
  repeat split; assumption.
Qed.

(** Fixed-width uppercase hex formatting, read back by the parser. *)

Lemma hex_char_val (d : N) : (d < 16)%N -> hex_digit_val (hex_char d) = Some d.
Proof.
  intros H; unfold hex_char; rewrite <- (N2Nat.id d) at 2.
  assert (Hn : N.to_nat d < 16) by lia; revert Hn; generalize (N.to_nat d) as n.
  intros n Hn; do 16 (destruct n as [|n]; [reflexivity|]); lia.
Qed.

Lemma hex_char_hex (d : N) : is_hex_digit (hex_char d) = true.
Proof.
  unfold hex_char.
  assert (Hin : In (nth (N.to_nat d) (lit "0123456789ABCDEF") "0"%char)
                   ("0"%char :: lit "0123456789ABCDEF")).
  { destruct (Nat.lt_ge_cases (N.to_nat d) (List.length (lit "0123456789ABCDEF"))) as [Hl|Hl].
    - right; apply nth_In; exact Hl.
    - left; rewrite nth_overflow by exact Hl; reflexivity. }
  revert Hin; generalize (nth (N.to_nat d) (lit "0123456789ABCDEF") "0"%char).
  intros c Hin; simpl in Hin.
  repeat (destruct Hin as [<-|Hin]; [reflexivity|]); destruct Hin.
Qed.

Lemma hex_digits_go_spec (f : nat) :
  forall v acc, (v < 16 ^ N.of_nat f)%N ->
  exists ds, hex_digits_go f v acc = ds ++ acc /\
    Forall (fun c => is_hex_digit c = true) ds /\
    (forall a, fold_left hex_step ds a = a * 16 ^ N.of_nat (List.length ds) + v)%N /\
    (forall n, 1 <= n -> (v < 16 ^ N.of_nat n)%N -> List.length ds <= n).
Proof.
  induction f as [|f IH]; intros v acc Hv.
  { exists []; cbn in *; repeat split; [constructor | intros a; lia | intros; lia]. }
  pose proof (N.div_mod v 16 ltac:(lia)) as Hdm.
  pose proof (N.mod_lt v 16 ltac:(lia)) as Hm.
  cbn [hex_digits_go].
  destruct (v / 16 =? 0)%N eqn:E.
  - apply N.eqb_eq in E; rewrite E in Hdm.
    exists [hex_char (v mod 16)]; repeat split.
    + repeat constructor; apply hex_char_hex.
    + intros a; cbn [fold_left List.length]; unfold hex_step; rewrite hex_char_val by exact Hm.
      change (N.of_nat 1) with 1%N; rewrite N.pow_1_r; lia.
    + intros n Hn _; cbn; lia.
  - apply N.eqb_neq in E.
    assert (Hv' : (v / 16 < 16 ^ N.of_nat f)%N).
    { apply N.Div0.div_lt_upper_bound.
      rewrite Nat2N.inj_succ, N.pow_succ_r' in Hv; lia. }
    destruct (IH (v / 16)%N (hex_char (v mod 16)%N :: acc) Hv') as (ds & Hds & Hh & Hf & Hl).
    exists (ds ++ [hex_char (v mod 16)%N]); repeat split.
    + rewrite Hds, <- app_assoc; reflexivity.
    + apply Forall_app; split; [exact Hh | repeat constructor; apply hex_char_hex].
    + intros a; rewrite fold_left_app, Hf; cbn [fold_left]; unfold hex_step.
      rewrite hex_char_val by exact Hm.
      rewrite length_app; cbn [List.length].
      rewrite Nat2N.inj_add, N.pow_add_r; cbn [N.of_nat Pos.of_succ_nat]; lia.
    + intros n Hn Hvn; rewrite length_app; cbn [List.length].
      destruct n as [|[|n]]; [lia | |].
      * exfalso; apply E; apply N.div_small; cbn in Hvn; lia.
      * enough (List.length ds <= S n) by lia.
        apply Hl; [lia|]; apply N.Div0.div_lt_upper_bound.
        rewrite (Nat2N.inj_succ (S n)), N.pow_succ_r' in Hvn; exact Hvn.
Qed.

Lemma fold_hex_zeros (k : nat) : fold_left hex_step (repeat "0"%char k) 0%N = 0%N.
Proof. induction k as [|k IH]; [reflexivity|]; cbn [repeat fold_left]; exact IH. Qed.

Lemma fmt_hex_upper_spec (w : nat) (v : N) :
  1 <= w -> (v < 2 ^ 32)%N -> (v < 16 ^ N.of_nat w)%N ->
  List.length (fmt_hex_upper w v) = w /\
  Forall (fun c => is_hex_digit c = true) (fmt_hex_upper w v) /\
  hex_value (fmt_hex_upper w v) = v.
Proof.
  intros Hw Hv32 Hv.
  assert (H32 : (v < 16 ^ N.of_nat 32)%N) by (eapply N.lt_le_trans; [exact Hv32|]; cbn; lia).
  destruct (hex_digits_go_spec 32 v [] H32) as (ds & Hds & Hh & Hf & Hl).
  specialize (Hl w Hw Hv); unfold fmt_hex_upper, hex_value.
  rewrite Hds, app_nil_r; repeat split.
  - rewrite length_app, repeat_length; lia.
  - apply Forall_app; split; [|exact Hh].
    apply Forall_forall; intros c Hc; apply repeat_spec in Hc; subst; reflexivity.
  - rewrite fold_left_app, fold_hex_zeros, Hf; lia.
Qed.

Lemma from_str_hex_fields (fb fg fv fp : rstr) :
  List.length fb = 4 -> List.length fg = 4 ->
  List.length fv = 8 -> List.length fp = 8 ->
  Forall (fun c => is_hex_digit c = true) fb ->
  Forall (fun c => is_hex_digit c = true) fg ->
  Forall (fun c => is_hex_digit c = true) fv ->
  Forall (fun c => is_hex_digit c = true) fp ->
  Modalias.from_str ("b"%char :: fb ++ "g"%char :: fg ++ "v"%char :: fv ++ "p"%char :: fp) =
  ROk (Modalias.mk (hex_value fb) (hex_value fg) (hex_value fv) (hex_value fp)).
Proof.
  intros Hfb Hfg Hfv Hfp Hb Hg Hvv Hp.
  assert (Eb : from_str_radix16 fb = Some (hex_value fb))
    by (apply from_str_radix16_hex; [intros ->; discriminate | lia | exact Hb]).
  assert (Eg : from_str_radix16 fg = Some (hex_value fg))
    by (apply from_str_radix16_hex; [intros ->; discriminate | lia | exact Hg]).
  assert (Ev : from_str_radix16 fv = Some (hex_value fv))
    by (apply from_str_radix16_hex; [intros ->; discriminate | lia | exact Hvv]).
  assert (Ep : from_str_radix16 fp = Some (hex_value fp))
    by (apply from_str_radix16_hex; [intros ->; discriminate | lia | exact Hp]).
  unfold Modalias.from_str; rewrite trim_start_matches_none by reflexivity.
  explode4 fb Hfb b1 b2 b3 b4. explode4 fg Hfg g1 g2 g3 g4.
  explode8 fv Hfv v1 v2 v3 v4 v5 v6 v7 v8.
  explode8 fp Hfp p1 p2 p3 p4 p5 p6 p7 p8.
  split_forall.
  repeat match goal with
         | H : is_hex_digit ?c = true |- _ =>
             destruct (hex_digit_props c H) as (? & ? & ?); clear H
         end.
  compute_fields.
  rewrite Eb, Eg, Ev, Ep; reflexivity.
Qed.

(** The kernel's HID modalias, [hid:b%04Xg%04Xv%08Xp%08X]: the same
    fixed-width uppercase fields as the glob of [load_bpf_from_directory]. *)
Definition kernel_modalias (m : Modalias.t) : rstr :=
  lit "hid:b" ++ fmt_hex_upper 4 (Modalias.bus m) ++
  lit "g" ++ fmt_hex_upper 4 (Modalias.group m) ++
  lit "v" ++ fmt_hex_upper 8 (Modalias.vid m) ++
  lit "p" ++ fmt_hex_upper 8 (Modalias.pid m).

Lemma from_str_kernel_form (m : Modalias.t) :
  (Modalias.bus m < 2 ^ 16)%N -> (Modalias.group m < 2 ^ 16)%N ->
  (Modalias.vid m < 2 ^ 32)%N -> (Modalias.pid m < 2 ^ 32)%N ->
  Modalias.from_str (kernel_modalias m) = ROk m.
Proof.
  intros Hb Hg Hv Hp.
  assert (E4 : (16 ^ N.of_nat 4 = 2 ^ 16)%N) by reflexivity.
  assert (E8 : (16 ^ N.of_nat 8 = 2 ^ 32)%N) by reflexivity.
  assert (E : (2 ^ 16 < 2 ^ 32)%N) by reflexivity.
  destruct (fmt_hex_upper_spec 4 (Modalias.bus m)) as (Lb & Fb & Vb);
    [lia | eapply N.lt_trans; eassumption | rewrite E4; exact Hb |].
  destruct (fmt_hex_upper_spec 4 (Modalias.group m)) as (Lg & Fg & Vg);
    [lia | eapply N.lt_trans; eassumption | rewrite E4; exact Hg |].
  destruct (fmt_hex_upper_spec 8 (Modalias.vid m)) as (Lv & Fv & Vv);
    [lia | exact Hv | rewrite E8; exact Hv |].
  destruct (fmt_hex_upper_spec 8 (Modalias.pid m)) as (Lp & Fp & Vp);
    [lia | exact Hp | rewrite E8; exact Hp |].
  unfold kernel_modalias.
  change (lit "hid:b") with (lit "hid:" ++ ["b"%char]); rewrite <- app_assoc.
  assert (Hpre : forall s, Modalias.from_str (lit "hid:" ++ s) = Modalias.from_str s)
    by (intros s; unfold Modalias.from_str; rewrite trim_hid_cons; reflexivity).
  rewrite Hpre; cbn [app lit list_ascii_of_string].
  rewrite from_str_hex_fields by assumption.
  rewrite Vb, Vg, Vv, Vp; destruct m; reflexivity.
Qed.

(** Extra: an identity written with the fixed-width uppercase fields the
    loader formats (4, 4, 8, 8 digits) parses back to the same values. *)
Theorem from_str_kernel_modalias (m : Modalias.t) :
  (Modalias.bus m < 2 ^ 16)%N -> (Modalias.group m < 2 ^ 16)%N ->
  (Modalias.vid m < 2 ^ 32)%N -> (Modalias.pid m < 2 ^ 32)%N ->
  Modalias.from_str (kernel_modalias m) = ROk m.
Proof. exact (from_str_kernel_form m). Qed.

Lemma from_str_kernel_modalias_witness :
  Modalias.from_str (kernel_modalias (Modalias.mk 3 1 1118 1957)) =
    ROk (Modalias.mk 3 1 1118 1957) /\
  kernel_modalias (Modalias.mk 3 1 1118 1957) = lit "hid:b0003g0001v0000045Ep000007A5".
Proof.
  split; [apply from_str_kernel_modalias; vm_compute; reflexivity | vm_compute; reflexivity].
Defined.

(** Letter case in the codec. *)










Lemma from_str_field_bounds_witness :
  Modalias.from_str (lit "b0003g0001v000004D9p0000A09F") =
    ROk (Modalias.mk 3 1 1241 41119) /\ (41119 < 2 ^ 32)%N.
Proof.
  assert (H : Modalias.from_str (lit "b0003g0001v000004D9p0000A09F") =
              ROk (Modalias.mk 3 1 1241 41119)) by (vm_compute; reflexivity).
  split; [exact H|].
  exact (proj2 (proj2 (proj2 (from_str_field_bounds _ _ H)))).
Defined.

(** Extra: once the directory exists and the identity and the selection
    succeed, an empty selection returns [Ok] without creating the loader
    (whatever creating it would do), and a non-empty one whose loads all
    succeed hands every selected path to the loader, in order, and
    returns [Ok]. *)
Theorem load_bpf_from_directory_selected (hidbpf_new : outcome unit)
    (load_programs : rstr -> HidUdev.t -> outcome unit)
    (F : fs) (h : HidUdev.t) (bpf_dir : rstr) (m : Modalias.t) (sel : list rstr) :
  path_exists F bpf_dir = true ->
  HidUdev.modalias h = ROk m ->
  HidUdev.select_matches F bpf_dir m = ROk sel ->
  (sel = [] ->
     HidUdev.load_bpf_from_directory hidbpf_new load_programs F h bpf_dir = ([], ROk tt)) /\
  (hidbpf_new = ROk tt ->
     Forall (fun p => load_programs p h = ROk tt) sel ->
     HidUdev.load_bpf_from_directory hidbpf_new load_programs F h bpf_dir = (sel, ROk tt)).
Proof.
  intros He Hm Hs; unfold HidUdev.load_bpf_from_directory.
  rewrite He, Hm, Hs; cbn [negb]; unfold HidUdev.load_matches; split.
  - intros ->; reflexivity.
  - intros -> Hall; destruct sel as [|p ps]; [reflexivity|].
    apply load_each_all_ok, Hall.
Qed.

Lemma load_bpf_from_directory_selected_witness :
  HidUdev.load_bpf_from_directory (ROk tt) (fun _ _ => ROk tt)
    (F3 bpf_dir0 bpf_entries0) (HidUdev.mk kbd_hid) bpf_dir0 =
    ([join bpf_dir0 (lit "b0003g0001v0000045Ep000007A5-kbd.bpf.o");
      join bpf_dir0 (lit "b0003g*v*p*.bpf.o")], ROk tt) /\
  HidUdev.load_bpf_from_directory RPanic (fun _ _ => RPanic)
    (F3 bpf_dir0 [Some (lit "README")]) (HidUdev.mk kbd_hid) bpf_dir0 = ([], ROk tt).
Proof.
  split.
  - apply (proj2 (load_bpf_from_directory_selected (ROk tt) (fun _ _ => ROk tt)
                    (F3 bpf_dir0 bpf_entries0) (HidUdev.mk kbd_hid) bpf_dir0
                    kbd_modalias _ eq_refl ltac:(vm_compute; reflexivity)
                    ltac:(vm_compute; reflexivity)) eq_refl).
    repeat constructor.
  - apply (proj1 (load_bpf_from_directory_selected RPanic (fun _ _ => RPanic)
                    (F3 bpf_dir0 [Some (lit "README")]) (HidUdev.mk kbd_hid) bpf_dir0
                    kbd_modalias [] eq_refl ltac:(vm_compute; reflexivity)
                    ltac:(vm_compute; reflexivity)) eq_refl).
Defined.

(** Extra: when the path resolves to a device record that is not itself
    a HID node, [cmd_remove] purges under the sysname of the nearest HID
    ancestor, not under the name of the node it was given. *)
Theorem cmd_remove_nearest_hid (purge : rstr -> outcome unit)
    (U : udev) (F : fs) (syspath : rstr) (d : device)
    (pre : list device) (a : device) (post : list device) :
  device_from_syspath U syspath = ROk d ->
  dev_subsystem d <> Some (lit "hid") ->
  ancestors d = pre ++ a :: post ->
  Forall (fun x => dev_subsystem x <> Some (lit "hid")) pre ->
  dev_subsystem a = Some (lit "hid") ->
  utf8_valid (dev_sysname a) = true ->
  cmd_remove purge U F syspath = purge (dev_sysname a).
Proof.
  intros Hd Hn Ha Hpre Hh Hu.
  assert (Hr : HidUdev.from_syspath U syspath = ROk (HidUdev.mk a)).
  { unfold HidUdev.from_syspath; rewrite Hd; cbn [obind].
    change (match property_value d (lit "SUBSYSTEM") with
            | Some sub => rstr_eqb sub (lit "hid") | None => false end)
      with (has_subsystem (lit "hid") d).
    rewrite (proj2 (has_subsystem_hid_false d) Hn).
    rewrite parent_with_subsystem_find, Ha, find_first; [reflexivity| |].
    - eapply Forall_impl; [|exact Hpre]; intros x Hx; apply has_subsystem_hid_false, Hx.
    - apply has_subsystem_hid, Hh. }
  unfold cmd_remove; rewrite Hr; unfold HidUdev.sysname; cbn [HidUdev.udev_device].
  rewrite Hu; reflexivity.
Qed.

Lemma cmd_remove_nearest_hid_witness :
  cmd_remove (fun n => if rstr_eqb n (lit "0003:045E:07A5.000B") then ROk tt
                       else RErr (OsError EACCES))
    U0 F_empty (dev_syspath kbd_input) = ROk tt.
Proof.
  rewrite (cmd_remove_nearest_hid _ U0 F_empty (dev_syspath kbd_input) kbd_input
             [] kbd_hid [] eq_refl ltac:(discriminate) eq_refl
             ltac:(constructor) eq_refl eq_refl).
  reflexivity.
Defined.

Lemma to_string_lossy_valid (n : nat) :
  forall s, List.length s <= n -> utf8_valid s = true -> to_string_lossy s = s.
Proof.
  induction n as [|n IH]; intros s Hl Hv;
    (destruct s as [|c r]; [reflexivity|]); [cbn in Hl; lia|].
  cbn [utf8_valid] in Hv; cbn [to_string_lossy]; cbn [List.length] in Hl.
  destruct (byte_of c <? 128)%N; [f_equal; apply IH; [lia|exact Hv]|].
  destruct ((194 <=? byte_of c)%N && (byte_of c <=? 223)%N).
  { destruct r as [|d r']; [discriminate|].
    apply andb_prop in Hv; destruct Hv as [-> Hv].
    do 2 f_equal; apply IH; [cbn in Hl; lia|exact Hv]. }
  destruct ((224 <=? byte_of c)%N && (byte_of c <=? 239)%N).
  { destruct r as [|d [|e r']]; try discriminate.
    apply andb_prop in Hv; destruct Hv as [Hv Hr].
    apply andb_prop in Hv; destruct Hv as [-> ->].
    do 3 f_equal; apply IH; [cbn in Hl; lia|exact Hr]. }
  destruct ((240 <=? byte_of c)%N && (byte_of c <=? 244)%N); [|discriminate].
  destruct r as [|d [|e [|f r']]]; try discriminate.
  apply andb_prop in Hv; destruct Hv as [Hv Hr].
  apply andb_prop in Hv; destruct Hv as [Hv ->].
  apply andb_prop in Hv; destruct Hv as [-> ->].
  do 4 f_equal; apply IH; [cbn in Hl; lia|exact Hr].
Qed.

Lemma to_string_lossy_ascii (s : rstr) :
  Forall (fun c => (byte_of c <? 128)%N = true) s -> to_string_lossy s = s.
Proof.
  intros H; apply (to_string_lossy_valid (List.length s)); [lia|].
  apply utf8_valid_ascii, H.
Qed.

(** A sequence cut short by the end of the prefix, before an ASCII tail. *)
Ltac lossy_cut Hs :=
  let x := fresh "x" in let s' := fresh "s'" in let Hx := fresh "Hx" in
  match type of Hs with
  | Forall _ ?s =>
      destruct s as [|x s']; [reflexivity|];
      inversion Hs as [|? ? Hx _]; subst;
      rewrite (ascii_not_continuation x Hx); rewrite ?andb_false_l;
      rewrite (to_string_lossy_ascii (x :: s')) by exact Hs; reflexivity
  end.

Lemma to_string_lossy_app_ascii (n : nat) (s : rstr) :
  Forall (fun c => (byte_of c <? 128)%N = true) s ->
  forall a, List.length a <= n ->
  to_string_lossy (a ++ s) = to_string_lossy a ++ s.
Proof.
  intros Hs; induction n as [|n IH]; intros a Hl.
  { destruct a; [cbn [app to_string_lossy]; apply to_string_lossy_ascii, Hs | cbn in Hl; lia]. }
  destruct a as [|c r]; [cbn [app to_string_lossy]; apply to_string_lossy_ascii, Hs|].
  cbn [List.length] in Hl; rewrite <- app_comm_cons; cbn [to_string_lossy].
  destruct (byte_of c <? 128)%N; [cbn [app]; f_equal; apply IH; lia|].
  destruct ((194 <=? byte_of c)%N && (byte_of c <=? 223)%N).
  { destruct r as [|d r']; cbn [app].
    - lossy_cut Hs.
    - destruct (is_continuation d);
        [rewrite IH by (cbn [List.length] in *; lia); reflexivity|].
      rewrite app_comm_cons, IH by (cbn [List.length] in *; lia).
      rewrite app_assoc; reflexivity. }
  destruct ((224 <=? byte_of c)%N && (byte_of c <=? 239)%N).
  { destruct r as [|d r']; cbn [app].
    - lossy_cut Hs.
    - destruct (is_continuation d && utf8_second_ok c d).
      + destruct r' as [|e r'']; cbn [app].
        * lossy_cut Hs.
        * destruct (is_continuation e);
            [rewrite IH by (cbn [List.length] in *; lia); reflexivity|].
          rewrite app_comm_cons, IH by (cbn [List.length] in *; lia).
          rewrite app_assoc; reflexivity.
      + rewrite app_comm_cons, IH by (cbn [List.length] in *; lia).
        rewrite app_assoc; reflexivity. }
  destruct ((240 <=? byte_of c)%N && (byte_of c <=? 244)%N).
  { destruct r as [|d r']; cbn [app].
    - lossy_cut Hs.
    - destruct (is_continuation d && utf8_second_ok c d).
      + destruct r' as [|e r'']; cbn [app].
        * lossy_cut Hs.
        * destruct (is_continuation e).
          -- destruct r'' as [|f r''']; cbn [app].
             ++ lossy_cut Hs.
             ++ destruct (is_continuation f);
                  [rewrite IH by (cbn [List.length] in *; lia); reflexivity|].
                rewrite app_comm_cons, IH by (cbn [List.length] in *; lia).
                rewrite app_assoc; reflexivity.
          -- rewrite app_comm_cons, IH by (cbn [List.length] in *; lia).
             rewrite app_assoc; reflexivity.
      + rewrite app_comm_cons, IH by (cbn [List.length] in *; lia).
        rewrite app_assoc; reflexivity. }
  rewrite IH by lia; rewrite app_assoc; reflexivity.
Qed.

Lemma ends_with_app (a suffix : rstr) : ends_with (a ++ suffix) suffix = true.
Proof.
  unfold ends_with; rewrite length_app.
  replace (List.length a + List.length suffix - List.length suffix) with (List.length a) by lia.
  rewrite skipn_app, skipn_all, Nat.sub_diag; cbn [skipn app].
  apply andb_true_intro; split; [apply Nat.leb_le; lia | apply rstr_eqb_eq; reflexivity].
Qed.

(** Extra: [cmd_list_bpf_programs] lists the given directory, or the
    default one. If that path is not UTF-8, [to_str().unwrap()] panics
    before anything is printed. Otherwise it prints its header before
    reading the directory; a failing [read_dir] then ends the command
    with that error after the header, and a readable directory whose
    entry names are UTF-8 gives the header followed by exactly the names
    ending in [.bpf.o] (letter case counts), in directory order, each
    behind a space. *)
Theorem cmd_list_bpf_programs_output (read_dir_error : rstr -> io_error)
    (F : fs) (bpfdir : option rstr) :
  let dir := match bpfdir with Some d => d | None => default_bpf_dir F end in
  let header := lit "Showing available BPF files in " ++ dir ++ lit ":" in
  (utf8_valid dir = false ->
     cmd_list_bpf_programs read_dir_error F bpfdir = ([], RPanic)) /\
  (utf8_valid dir = true -> fs_read_dir F dir = None ->
     cmd_list_bpf_programs read_dir_error F bpfdir =
       ([header], RErr (read_dir_error dir))) /\
  (forall elems, utf8_valid dir = true -> fs_read_dir F dir = Some elems ->
     (forall n, In n (HidUdev.entry_names elems) -> utf8_valid n = true) ->
     cmd_list_bpf_programs read_dir_error F bpfdir =
       (header :: map (fun name => lit " " ++ name)
                    (filter (fun name => ends_with name (lit ".bpf.o"))
                       (HidUdev.entry_names elems)), ROk tt)).
Proof.
  intros dir header; unfold cmd_list_bpf_programs; fold dir; split; [|split].
  - intros ->; reflexivity.
  - intros -> ->; reflexivity.
  - intros elems -> -> Hn; cbn [negb].
    rewrite (map_ext_in to_string_lossy (fun x => x)), map_id; [reflexivity|].
    intros n Hin; apply (to_string_lossy_valid (List.length n)); [lia|exact (Hn n Hin)].
Qed.

Lemma cmd_list_bpf_programs_output_witness :
  cmd_list_bpf_programs (fun _ => OsError 2%Z) (F3 (lit "/d") [Some (lit "a.bpf.o"); None;
      Some (lit "b.BPF.O"); Some (lit "c.bpf.o.txt"); Some (lit "d.bpf.o")]) (Some (lit "/d")) =
    ([lit "Showing available BPF files in /d:"; lit " a.bpf.o"; lit " d.bpf.o"], ROk tt) /\
  cmd_list_bpf_programs (fun _ => OsError 2%Z) F_empty None =
    ([lit "Showing available BPF files in /usr/local/lib/firmware/hid/bpf:"],
     RErr (OsError 2%Z)) /\
  cmd_list_bpf_programs (fun _ => OsError 2%Z) F_empty (Some (lit "/d" ++ [ascii_of_N 255])) =
    ([], RPanic).
Proof.
  destruct (cmd_list_bpf_programs_output (fun _ => OsError 2%Z)
              (F3 (lit "/d") [Some (lit "a.bpf.o"); None; Some (lit "b.BPF.O");
                              Some (lit "c.bpf.o.txt"); Some (lit "d.bpf.o")])
              (Some (lit "/d"))) as [_ [_ H2]].
  destruct (cmd_list_bpf_programs_output (fun _ => OsError 2%Z) F_empty None)
    as [_ [H3 _]].
  destruct (cmd_list_bpf_programs_output (fun _ => OsError 2%Z) F_empty
              (Some (lit "/d" ++ [ascii_of_N 255]))) as [H4 _].
  split; [|split].
  - rewrite (H2 _ eq_refl eq_refl).
    + vm_compute; reflexivity.
    + intros n Hn; vm_compute in Hn;
        repeat (destruct Hn as [<-|Hn]; [reflexivity|]); destruct Hn.
  - exact (H3 eq_refl eq_refl).
  - exact (H4 eq_refl).
Defined.

(** Extra: in a directory with a UTF-8 path, an entry whose name is not
    UTF-8 does not stop the listing:
    if the raw name ends in [.bpf.o], it is printed after lossy
    conversion, which keeps that ending. *)
Theorem cmd_list_bpf_programs_lossy (read_dir_error : rstr -> io_error)
    (F : fs) (dir : rstr) (elems : list (option rstr)) (a : rstr) :
  utf8_valid dir = true ->
  fs_read_dir F dir = Some elems ->
  In (a ++ lit ".bpf.o") (HidUdev.entry_names elems) ->
  snd (cmd_list_bpf_programs read_dir_error F (Some dir)) = ROk tt /\
  In (lit " " ++ to_string_lossy a ++ lit ".bpf.o")
     (fst (cmd_list_bpf_programs read_dir_error F (Some dir))).
Proof.
  intros Hd Hr Hin; unfold cmd_list_bpf_programs; rewrite Hd, Hr; cbn [negb fst snd].
  split; [reflexivity|]; right.
  assert (Hl : to_string_lossy (a ++ lit ".bpf.o") = to_string_lossy a ++ lit ".bpf.o").
  { apply (to_string_lossy_app_ascii (List.length a)); [repeat constructor | lia]. }
  apply in_map_iff; exists (to_string_lossy a ++ lit ".bpf.o"); split; [reflexivity|].
  apply filter_In; split; [|apply ends_with_app].
  rewrite <- Hl; apply in_map, Hin.
Qed.

Lemma cmd_list_bpf_programs_lossy_witness :
  cmd_list_bpf_programs (fun _ => OsError 2%Z)
    (F3 (lit "/d") [Some (ascii_of_N 255 :: lit "x.bpf.o")]) (Some (lit "/d")) =
    ([lit "Showing available BPF files in /d:";
      lit " " ++ replacement_char ++ lit "x.bpf.o"], ROk tt) /\
  In (lit " " ++ to_string_lossy [ascii_of_N 255; "x"%char] ++ lit ".bpf.o")
     (fst (cmd_list_bpf_programs (fun _ => OsError 2%Z)
             (F3 (lit "/d") [Some (ascii_of_N 255 :: lit "x.bpf.o")]) (Some (lit "/d")))).
Proof.
  split; [vm_compute; reflexivity|].
  apply (cmd_list_bpf_programs_lossy (fun _ => OsError 2%Z)
           (F3 (lit "/d") [Some (ascii_of_N 255 :: lit "x.bpf.o")]) (lit "/d")
           [Some (ascii_of_N 255 :: lit "x.bpf.o")] [ascii_of_N 255; "x"%char]
           eq_refl eq_refl).
  left; reflexivity.
Defined.

Lemma hex_char_re (d : N) : is_re_char (hex_char d) = true.
Proof.
  unfold hex_char.
  assert (Hin : In (nth (N.to_nat d) (lit "0123456789ABCDEF") "0"%char)
                   ("0"%char :: lit "0123456789ABCDEF")).
  { destruct (Nat.lt_ge_cases (N.to_nat d) (List.length (lit "0123456789ABCDEF"))) as [Hl|Hl].
    - right; apply nth_In; exact Hl.
    - left; rewrite nth_overflow by exact Hl; reflexivity. }
  revert Hin; generalize (nth (N.to_nat d) (lit "0123456789ABCDEF") "0"%char).
  intros c Hin; simpl in Hin.
  repeat (destruct Hin as [<-|Hin]; [reflexivity|]); destruct Hin.
Qed.

Lemma hex_digits_go_re (fuel : nat) (v : N) (acc : rstr) :
  Forall (fun c => is_re_char c = true) acc ->
  Forall (fun c => is_re_char c = true) (hex_digits_go fuel v acc).
Proof.
  revert v acc; induction fuel as [|f IH]; intros v acc H; [exact H|].
  cbn [hex_digits_go].
  destruct (v / 16 =? 0)%N; [|apply IH]; (constructor; [apply hex_char_re | exact H]).
Qed.

Lemma fmt_hex_upper_re (w : nat) (v : N) :
  Forall (fun c => is_re_char c = true) (fmt_hex_upper w v).
Proof.
  unfold fmt_hex_upper; apply Forall_app; split.
  - apply Forall_forall; intros c Hc; apply repeat_spec in Hc; subst; reflexivity.
  - apply hex_digits_go_re; constructor.
Qed.

Lemma fmt_hex_upper_length4 (v : N) :
  (v < 2 ^ 16)%N -> List.length (fmt_hex_upper 4 v) = 4.
Proof.
  intros Hv.
  assert (E4 : (16 ^ N.of_nat 4 = 2 ^ 16)%N) by reflexivity.
  assert (E : (2 ^ 16 < 2 ^ 32)%N) by reflexivity.
  apply fmt_hex_upper_spec; lia.
Qed.

Lemma fmt_hex_upper_8_short (v : N) :
  (v < 2 ^ 16)%N -> fmt_hex_upper 8 v = lit "0000" ++ fmt_hex_upper 4 v.
Proof.
  intros Hv; pose proof (fmt_hex_upper_length4 v Hv) as Hl.
  unfold fmt_hex_upper in *; set (ds := hex_digits_go 32 v []) in *.
  rewrite length_app, repeat_length in Hl.
  replace (8 - List.length ds) with (4 + (4 - List.length ds)) by lia.
  rewrite repeat_app, <- app_assoc; reflexivity.
Qed.

Lemma take_re4_app (l r : rstr) :
  List.length l = 4 -> Forall (fun c => is_re_char c = true) l ->
  take_re4 (l ++ r) = Some (l, r).
Proof.
  intros Hl Hf; explode4 l Hl b1 b2 b3 b4; cbn [app take_re4].
  rewrite (proj2 (forallb_forall _ _) (proj1 (Forall_forall _ _) Hf)); reflexivity.
Qed.

Lemma take_re4_inv (s x r : rstr) :
  take_re4 s = Some (x, r) -> s = x ++ r /\ List.length x = 4.
Proof.
  destruct s as [|a [|b [|c [|d r']]]]; try discriminate; cbn [take_re4].
  destruct (forallb _ _); [|discriminate].
  intros H; injection H as <- <-; split; reflexivity.
Qed.

Lemma modalias_caps_at_inv (s b g v p : rstr) :
  modalias_caps_at s = Some (b, g, v, p) ->
  exists rest,
    s = lit "hid:b" ++ b ++ lit "g" ++ g ++ lit "v0000" ++ v ++ lit "p0000" ++ p ++ rest /\
    List.length b = 4 /\ List.length g = 4 /\ List.length v = 4 /\ List.length p = 4.
Proof.
  unfold modalias_caps_at.
  destruct (strip_prefix _ s) as [r1|] eqn:E1; [|discriminate].
  destruct (take_re4 r1) as [[b' r2]|] eqn:E2; [|discriminate].
  destruct (strip_prefix _ r2) as [r3|] eqn:E3; [|discriminate].
  destruct (take_re4 r3) as [[g' r4]|] eqn:E4; [|discriminate].
  destruct (strip_prefix _ r4) as [r5|] eqn:E5; [|discriminate].
  destruct (take_re4 r5) as [[v' r6]|] eqn:E6; [|discriminate].
  destruct (strip_prefix _ r6) as [r7|] eqn:E7; [|discriminate].
  destruct (take_re4 r7) as [[p' rest]|] eqn:E8; [|discriminate].
  intros H; injection H as <- <- <- <-.
  apply strip_prefix_app in E1, E3, E5, E7.
  apply take_re4_inv in E2, E4, E6, E8.
  destruct E2 as [-> H2], E4 as [-> H4], E6 as [-> H6], E8 as [-> H8].
  subst; exists rest; repeat split; assumption.
Qed.

Lemma modalias_caps_at_length (s : rstr) (caps : rstr * rstr * rstr * rstr) :
  modalias_caps_at s = Some caps -> 32 <= List.length s.
Proof.
  destruct caps as [[[b g] v] p]; intros H.
  destruct (modalias_caps_at_inv _ _ _ _ _ H) as (rest & -> & Hb & Hg & Hv & Hp).
  rewrite !length_app, Hb, Hg, Hv, Hp; cbn; lia.
Qed.

Lemma modalias_captures_eq (s : rstr) :
  modalias_captures s =
  match modalias_caps_at s with
  | Some caps => Some caps
  | None => match s with [] => None | _ :: s' => modalias_captures s' end
  end.
Proof. destruct s; reflexivity. Qed.

Lemma modalias_captures_short (s : rstr) :
  List.length s < 32 -> modalias_captures s = None.
Proof.
  induction s as [|c s IH]; intros Hl; rewrite modalias_captures_eq.
  - reflexivity.
  - destruct (modalias_caps_at (c :: s)) eqn:E;
      [apply modalias_caps_at_length in E; lia|].
    apply IH; cbn in Hl; lia.
Qed.

Lemma hex_value_0000 (l : rstr) :
  Forall (fun c => is_hex_digit c = true) l ->
  (hex_value (lit "0000" ++ l) < 16 ^ N.of_nat (List.length l))%N.
Proof.
  intros Hl; unfold hex_value; rewrite fold_left_app.
  replace (fold_left hex_step (lit "0000") 0%N) with 0%N by reflexivity.
  pose proof (fold_hex_bound l 0 Hl) as H; rewrite N.mul_1_l in H; exact H.
Qed.

Lemma kernel_modalias_utf8 (m : Modalias.t) : utf8_valid (kernel_modalias m) = true.
Proof.
  pose proof (fun w v => safe_ascii _ (proj1 (fmt_hex_upper_safe w v))) as Hf.
  apply utf8_valid_ascii; unfold kernel_modalias.
  rewrite !Forall_app; repeat split; try apply Hf; repeat constructor.
Qed.

Lemma kernel_modalias_length (m : Modalias.t) :
  (Modalias.bus m < 2 ^ 16)%N -> (Modalias.group m < 2 ^ 16)%N ->
  (Modalias.vid m < 2 ^ 32)%N -> (Modalias.pid m < 2 ^ 32)%N ->
  List.length (kernel_modalias m) = 32.
Proof.
  intros Hb Hg Hv Hp.
  assert (E8 : (16 ^ N.of_nat 8 = 2 ^ 32)%N) by reflexivity.
  unfold kernel_modalias; rewrite !length_app.
  rewrite !fmt_hex_upper_length4 by assumption.
  rewrite (proj1 (fmt_hex_upper_spec 8 (Modalias.vid m) ltac:(lia) Hv ltac:(lia))).
  rewrite (proj1 (fmt_hex_upper_spec 8 (Modalias.pid m) ltac:(lia) Hp ltac:(lia))).
  reflexivity.
Qed.

Lemma kernel_caps_small (m : Modalias.t) (caps : rstr * rstr * rstr * rstr) :
  (Modalias.bus m < 2 ^ 16)%N -> (Modalias.group m < 2 ^ 16)%N ->
  (Modalias.vid m < 2 ^ 32)%N -> (Modalias.pid m < 2 ^ 32)%N ->
  modalias_caps_at (kernel_modalias m) = Some caps ->
  (Modalias.vid m < 2 ^ 16)%N /\ (Modalias.pid m < 2 ^ 16)%N.
Proof.
  intros Hb Hg Hv Hp H; destruct caps as [[[b g] v] p].
  destruct (modalias_caps_at_inv _ _ _ _ _ H) as (rest & Heq & Lb & Lg & Lv & Lp).
  assert (E4 : (16 ^ N.of_nat 4 = 2 ^ 16)%N) by reflexivity.
  assert (E8 : (16 ^ N.of_nat 8 = 2 ^ 32)%N) by reflexivity.
  destruct (fmt_hex_upper_spec 8 (Modalias.vid m) ltac:(lia) Hv ltac:(lia))
    as (LV & HV & VV).
  destruct (fmt_hex_upper_spec 8 (Modalias.pid m) ltac:(lia) Hp ltac:(lia))
    as (LP & HP & VP).
  unfold kernel_modalias in Heq.
  apply app_inv_head in Heq.
  apply app_same_length in Heq; [|rewrite fmt_hex_upper_length4; auto].
  destruct Heq as [_ Heq]; apply app_inv_head in Heq.
  apply app_same_length in Heq; [|rewrite fmt_hex_upper_length4; auto].
  destruct Heq as [_ Heq].
  change (lit "v0000") with (lit "v" ++ lit "0000") in Heq.
  rewrite <- (app_assoc (lit "v") (lit "0000")) in Heq; apply app_inv_head in Heq.
  rewrite (app_assoc (lit "0000") v) in Heq.
  apply app_same_length in Heq; [|rewrite length_app, LV, Lv; reflexivity].
  destruct Heq as [Ev Heq].
  change (lit "p0000") with (lit "p" ++ lit "0000") in Heq.
  rewrite <- (app_assoc (lit "p") (lit "0000")) in Heq; apply app_inv_head in Heq.
  rewrite Ev in HV, VV; rewrite Heq in HP, VP, LP.
  apply Forall_app in HV, HP; destruct HV as [_ HV], HP as [_ HP].
  pose proof (hex_value_0000 v HV) as Bv; pose proof (hex_value_0000 _ HP) as Bp.
  rewrite length_app in LP; cbn [List.length lit list_ascii_of_string] in LP.
  rewrite VV, Lv in Bv; rewrite VP in Bp.
  replace (List.length (p ++ rest)) with 4 in Bp by (rewrite length_app in *; lia).
  split; lia.
Qed.

Lemma kernel_caps (m : Modalias.t) :
  (Modalias.bus m < 2 ^ 16)%N -> (Modalias.group m < 2 ^ 16)%N ->
  (Modalias.vid m < 2 ^ 16)%N -> (Modalias.pid m < 2 ^ 16)%N ->
  modalias_captures (kernel_modalias m) =
    Some (fmt_hex_upper 4 (Modalias.bus m), fmt_hex_upper 4 (Modalias.group m),
          fmt_hex_upper 4 (Modalias.vid m), fmt_hex_upper 4 (Modalias.pid m)).
Proof.
  intros Hb Hg Hv Hp; rewrite modalias_captures_eq.
  assert (Hv' : forall rest, lit "v" ++ fmt_hex_upper 8 (Modalias.vid m) ++ rest =
                             lit "v0000" ++ fmt_hex_upper 4 (Modalias.vid m) ++ rest)
    by (intros rest; rewrite fmt_hex_upper_8_short by exact Hv; reflexivity).
  assert (Hp' : lit "p" ++ fmt_hex_upper 8 (Modalias.pid m) =
                lit "p0000" ++ fmt_hex_upper 4 (Modalias.pid m) ++ [])
    by (rewrite fmt_hex_upper_8_short by exact Hp; rewrite app_nil_r; reflexivity).
  unfold kernel_modalias; rewrite Hv', Hp'.
  unfold modalias_caps_at.
  repeat first
    [ rewrite strip_prefix_self; cbv beta iota
    | rewrite take_re4_app
        by (apply fmt_hex_upper_length4 || apply fmt_hex_upper_re; assumption);
      cbv beta iota ].
  reflexivity.
Qed.

Lemma kernel_caps_none (m : Modalias.t) :
  (Modalias.bus m < 2 ^ 16)%N -> (Modalias.group m < 2 ^ 16)%N ->
  (Modalias.vid m < 2 ^ 32)%N -> (Modalias.pid m < 2 ^ 32)%N ->
  (2 ^ 16 <= Modalias.vid m \/ 2 ^ 16 <= Modalias.pid m)%N ->
  modalias_captures (kernel_modalias m) = None.
Proof.
  intros Hb Hg Hv Hp Hw; rewrite modalias_captures_eq.
  destruct (modalias_caps_at (kernel_modalias m)) as [caps|] eqn:E.
  - apply kernel_caps_small in E; [lia|assumption..].
  - pose proof (kernel_modalias_length m Hb Hg Hv Hp) as L.
    destruct (kernel_modalias m) as [|c s]; [reflexivity|].
    apply modalias_captures_short; cbn in L; lia.
Qed.

(** Extra: a device with a valid UTF-8 syspath and [HID_NAME] whose
    [MODALIAS] is the kernel's fixed-width form with bus, group, vendor
    and product below [0x10000] is listed with
    its path, its [HID_NAME], and a [HID_DEVICE] entry that names the
    bus and group from the tables (or keeps their digits) and gives the
    vendor and product as four uppercase hexadecimal digits. *)
Theorem list_device_kernel_modalias (U : udev) (syspath : rstr) (d : device)
    (name : rstr) (m : Modalias.t) :
  device_from_syspath U syspath = ROk d ->
  property_value d (lit "HID_NAME") = Some name ->
  utf8_valid name = true ->
  property_value d (lit "MODALIAS") = Some (kernel_modalias m) ->
  (Modalias.bus m < 2 ^ 16)%N -> (Modalias.group m < 2 ^ 16)%N ->
  (Modalias.vid m < 2 ^ 16)%N -> (Modalias.pid m < 2 ^ 16)%N ->
  utf8_valid syspath = true ->
  list_device U syspath =
    ROk [syspath;
         lit "  - name: " ++ name;
         lit "  - device entry: HID_DEVICE(" ++ bus_name (fmt_hex_upper 4 (Modalias.bus m))
           ++ lit ", " ++ group_name (fmt_hex_upper 4 (Modalias.group m))
           ++ lit ", 0x" ++ fmt_hex_upper 4 (Modalias.vid m)
           ++ lit ", 0x" ++ fmt_hex_upper 4 (Modalias.pid m) ++ lit ")";
         []].
Proof.
  intros Hd Hn Hnu Hm Hb Hg Hv Hp Hs.
  unfold list_device; rewrite Hd; cbn [obind]; rewrite Hn, Hnu; cbn [negb].
  rewrite Hm, kernel_modalias_utf8; cbn [negb].
  rewrite kernel_caps by assumption; rewrite Hs; reflexivity.
Qed.

Lemma list_device_kernel_modalias_witness :
  list_device U1 (join HID_DEVICES_DIR (lit "0003:045E:07A5.000B")) =
    ROk [lit "/sys/bus/hid/devices/0003:045E:07A5.000B";
         lit "  - name: Microsoft Natural Keyboard";
         lit "  - device entry: HID_DEVICE(BUS_USB, HID_GROUP_GENERIC, 0x045E, 0x07A5)";
         []].
Proof.
  rewrite (list_device_kernel_modalias U1 (join HID_DEVICES_DIR (lit "0003:045E:07A5.000B")) named_kbd (lit "Microsoft Natural Keyboard")
             kbd_modalias eq_refl eq_refl eq_refl ltac:(vm_compute; reflexivity)
             ltac:(vm_compute; reflexivity) ltac:(vm_compute; reflexivity)
             ltac:(vm_compute; reflexivity) ltac:(vm_compute; reflexivity) eq_refl).
  vm_compute; reflexivity.
Defined.

(** Extra: the listing's pattern requires four leading zeros in the
    vendor and product fields, so a device with a valid UTF-8 [HID_NAME]
    whose kernel-form [MODALIAS] has a vendor or product of [0x10000] or
    more prints nothing. *)
Theorem list_device_wide_id (U : udev) (syspath : rstr) (d : device)
    (name : rstr) (m : Modalias.t) :
  device_from_syspath U syspath = ROk d ->
  property_value d (lit "HID_NAME") = Some name ->
  utf8_valid name = true ->
  property_value d (lit "MODALIAS") = Some (kernel_modalias m) ->
  (Modalias.bus m < 2 ^ 16)%N -> (Modalias.group m < 2 ^ 16)%N ->
  (Modalias.vid m < 2 ^ 32)%N -> (Modalias.pid m < 2 ^ 32)%N ->
  (2 ^ 16 <= Modalias.vid m \/ 2 ^ 16 <= Modalias.pid m)%N ->
  list_device U syspath = ROk [].
Proof.
  intros Hd Hn Hnu Hm Hb Hg Hv Hp Hw.
  unfold list_device; rewrite Hd; cbn [obind]; rewrite Hn, Hnu; cbn [negb].
  rewrite Hm, kernel_modalias_utf8; cbn [negb].
  rewrite kernel_caps_none by assumption; reflexivity.
Qed.

Lemma list_device_wide_id_witness :
  list_device U1 (join HID_DEVICES_DIR (lit "0003:0000:0001.0003")) = ROk [].
Proof.
  apply (list_device_wide_id U1 (join HID_DEVICES_DIR (lit "0003:0000:0001.0003")) wide_hid (lit "Wide") (Modalias.mk 3 1 65536 1)
           eq_refl eq_refl eq_refl ltac:(vm_compute; reflexivity)
           ltac:(vm_compute; reflexivity) ltac:(vm_compute; reflexivity)
           ltac:(vm_compute; reflexivity) ltac:(vm_compute; reflexivity)).
  left; vm_compute; discriminate.
Defined.

Lemma list_devices_go_all (U : udev) (f : rstr -> rstr) (names : list rstr)
    (lss : list (list rstr)) :
  Forall2 (fun n ls => list_device U (f n) = ROk ls) names lss ->
  list_devices_go U (map (option_map f) (map Some names)) = (List.concat lss, ROk tt).
Proof.
  induction 1 as [|n ls names lss Hn _ IH]; [reflexivity|].
  cbn [map option_map list_devices_go]; rewrite Hn, IH; reflexivity.
Qed.

Lemma list_devices_go_stop (U : udev) (f : rstr -> rstr) (pre : list rstr)
    (lss : list (list rstr)) (n : rstr) (post : list (option rstr)) :
  Forall2 (fun n ls => list_device U (f n) = ROk ls) pre lss ->
  list_device U (f n) = RPanic ->
  list_devices_go U (map (option_map f) (map Some pre ++ Some n :: post)) =
    (List.concat lss, RPanic).
Proof.
  intros Hpre Hn; induction Hpre as [|q ls pre lss Hq _ IH].
  - cbn [map app option_map list_devices_go]; rewrite Hn; reflexivity.
  - cbn [map app option_map list_devices_go]; rewrite Hq.
    change (map (option_map f) (map Some pre ++ Some n :: post))
      with (map (option_map f) (map Some pre ++ Some n :: post)).
    rewrite IH; reflexivity.
Qed.

(** Extra: [cmd_list_devices] prints the blocks of the devices under
    [/sys/bus/hid/devices] one after the other, in directory order, and
    succeeds when every device's block is printed; when the directory
    cannot be read it prints nothing and returns [read_dir]'s error. *)
Theorem cmd_list_devices_blocks (read_dir_error : rstr -> io_error)
    (F : fs) (U : udev) :
  (fs_read_dir F HID_DEVICES_DIR = None ->
     cmd_list_devices read_dir_error F U = ([], RErr (read_dir_error HID_DEVICES_DIR))) /\
  (forall names lss,
     fs_read_dir F HID_DEVICES_DIR = Some (map Some names) ->
     Forall2 (fun n ls => list_device U (join HID_DEVICES_DIR n) = ROk ls) names lss ->
     cmd_list_devices read_dir_error F U = (List.concat lss, ROk tt)).
Proof.
  unfold cmd_list_devices; split.
  - intros ->; reflexivity.
  - intros names lss -> H; apply list_devices_go_all, H.
Qed.

Lemma cmd_list_devices_blocks_witness :
  cmd_list_devices (fun _ => OsError 2%Z)
    (F3 HID_DEVICES_DIR [Some (lit "0003:045E:07A5.000B"); Some (lit "0003:0000:0001.0003")])
    U1 =
    ([lit "/sys/bus/hid/devices/0003:045E:07A5.000B";
      lit "  - name: Microsoft Natural Keyboard";
      lit "  - device entry: HID_DEVICE(BUS_USB, HID_GROUP_GENERIC, 0x045E, 0x07A5)";
      []], ROk tt).
Proof.
  rewrite (proj2 (cmd_list_devices_blocks (fun _ => OsError 2%Z)
             (F3 HID_DEVICES_DIR [Some (lit "0003:045E:07A5.000B");
                                  Some (lit "0003:0000:0001.0003")]) U1)
             [lit "0003:045E:07A5.000B"; lit "0003:0000:0001.0003"]
             [[lit "/sys/bus/hid/devices/0003:045E:07A5.000B";
               lit "  - name: Microsoft Natural Keyboard";
               lit "  - device entry: HID_DEVICE(BUS_USB, HID_GROUP_GENERIC, 0x045E, 0x07A5)";
               []]; []] eq_refl).
  - reflexivity.
  - repeat constructor; vm_compute; reflexivity.
Defined.

(** Extra: [HID_NAME] is unwrapped before [MODALIAS] is looked at, so a
    device without a name (even one the listing would skip) aborts
    [cmd_list_devices] with a panic: the blocks of the devices before it
    stay printed and no later device is examined. *)
Theorem cmd_list_devices_missing_name (read_dir_error : rstr -> io_error)
    (F : fs) (U : udev) (pre : list rstr) (n : rstr) (post : list (option rstr))
    (lss : list (list rstr)) (d : device) :
  fs_read_dir F HID_DEVICES_DIR = Some (map Some pre ++ Some n :: post) ->
  Forall2 (fun q ls => list_device U (join HID_DEVICES_DIR q) = ROk ls) pre lss ->
  device_from_syspath U (join HID_DEVICES_DIR n) = ROk d ->
  property_value d (lit "HID_NAME") = None ->
  cmd_list_devices read_dir_error F U = (List.concat lss, RPanic).
Proof.
  intros Hr Hpre Hd Hn; unfold cmd_list_devices; rewrite Hr.
  apply list_devices_go_stop; [exact Hpre|].
  unfold list_device; rewrite Hd; cbn [obind]; rewrite Hn; reflexivity.
Qed.

Lemma cmd_list_devices_missing_name_witness :
  cmd_list_devices (fun _ => OsError 2%Z)
    (F3 HID_DEVICES_DIR [Some (lit "0003:045E:07A5.000B"); Some (lit "0003:0001:0001.0002");
                         Some (lit "0003:0000:0001.0003")])
    U1 =
    ([lit "/sys/bus/hid/devices/0003:045E:07A5.000B";
      lit "  - name: Microsoft Natural Keyboard";
      lit "  - device entry: HID_DEVICE(BUS_USB, HID_GROUP_GENERIC, 0x045E, 0x07A5)";
      []], RPanic).
Proof.
  apply (cmd_list_devices_missing_name (fun _ => OsError 2%Z)
           (F3 HID_DEVICES_DIR [Some (lit "0003:045E:07A5.000B"); Some (lit "0003:0001:0001.0002");
                                Some (lit "0003:0000:0001.0003")]) U1
           [lit "0003:045E:07A5.000B"] (lit "0003:0001:0001.0002")
           [Some (lit "0003:0000:0001.0003")]
           [[lit "/sys/bus/hid/devices/0003:045E:07A5.000B";
             lit "  - name: Microsoft Natural Keyboard";
             lit "  - device entry: HID_DEVICE(BUS_USB, HID_GROUP_GENERIC, 0x045E, 0x07A5)";
             []]] bare_hid eq_refl).
  - repeat constructor; vm_compute; reflexivity.
  - reflexivity.
  - reflexivity.
Defined.

(** Extra: a HID node whose [MODALIAS] property is the kernel's
    fixed-width form of an identity gives back that identity from
    [HidUdev::modalias], through [from_udev_device] and its [unwrap]. *)
Theorem modalias_kernel_property (h : HidUdev.t) (m : Modalias.t) :
  property_value (HidUdev.udev_device h) (lit "MODALIAS") = Some (kernel_modalias m) ->
  (Modalias.bus m < 2 ^ 16)%N -> (Modalias.group m < 2 ^ 16)%N ->
  (Modalias.vid m < 2 ^ 32)%N -> (Modalias.pid m < 2 ^ 32)%N ->
  HidUdev.modalias h = ROk m.
Proof.
  intros Hm Hb Hg Hv Hp.
  unfold HidUdev.modalias, Modalias.from_udev_device; rewrite Hm, kernel_modalias_utf8.
  rewrite from_str_kernel_form by assumption; reflexivity.
Qed.

Lemma modalias_kernel_property_witness :
  HidUdev.modalias (HidUdev.mk named_kbd) = ROk kbd_modalias.
Proof.
  apply modalias_kernel_property; vm_compute; reflexivity.
Defined.
